(** * Tasmota version checker: a shallow embedding of
      [src/tasmotaVersionChecker.ts] and the properties of its version
      parsing, ordering, persistence and polling cycle.

    The TypeScript class [TasmotaVersionChecker] keeps the last known
    Tasmota release in [lastTasmotaVersion], loads it from
    [/userdata/tasmota.ver] when it is constructed, and on every timer tick
    runs [checkTasmotaReleases]: one HTTPS request, one comparison, and on a
    newer release one flow-card trigger and one file write.

    The embedding keeps the source's data: version fields are JavaScript
    numbers (here: the non-negative integral doubles and [Infinity], which is
    all that [Number] of a digit string can yield), strings are character
    lists (the pattern tells apart only [v], [.] and the digits [0-9]; every
    other character, whatever its code, is just another character), and
    the effects (logging, the trigger card, the file, the HTTPS request,
    exceptions) are threaded through a small monad. *)

From Stdlib Require Import Arith NArith Ascii String List Bool Lia.
Import ListNotations.

Set Warnings "-register-all".

Local Open Scope string_scope.
Local Open Scope N_scope.

(** ** JavaScript numbers that version fields can hold *)

Module JSNumber.

(** [Number(digits)] yields the double nearest to the decimal value, or
    [Infinity].  [Fin n] stands for the double whose value is the integer
    [n]; it is a value of the language when [is_double n] holds. *)
Inductive number : Type :=
| Fin (n : N)
| Infinity.

Definition number_eqb (a b : number) : bool :=
  match a, b with
  | Fin x, Fin y => x =? y
  | Infinity, Infinity => true
  | _, _ => false
  end.

(** [a < b] on these numbers (no NaN arises from digit strings). *)
Definition number_ltb (a b : number) : bool :=
  match a, b with
  | Fin x, Fin y => x <? y
  | Fin _, Infinity => true
  | Infinity, _ => false
  end.

(** Round to nearest, ties to even, on a 53-bit significand; values that
    round to [2^1024] or more overflow to [Infinity]. *)
Definition round53 (m : N) : number :=
  if m <? 2 ^ 53 then Fin m
  else
    let e := N.log2 m - 52 in
    let q := m / 2 ^ e in
    let r := m mod 2 ^ e in
    let h := 2 ^ (e - 1) in
    let q' := if (h <? r) || ((r =? h) && N.odd q) then q + 1 else q in
    let v := q' * 2 ^ e in
    if 2 ^ 1024 <=? v then Infinity else Fin v.

Definition is_double (n : N) : bool := number_eqb (round53 n) (Fin n).

(** *** Decimal digits *)

Definition is_digit (c : ascii) : bool :=
  let n := N_of_ascii c in (48 <=? n) && (n <=? 57).

Definition digit_val (c : ascii) : N := N_of_ascii c - 48.

Definition digit_char (d : N) : ascii := ascii_of_N (48 + d).

Fixpoint all_digits (s : string) : bool :=
  match s with
  | EmptyString => true
  | String c r => is_digit c && all_digits r
  end.

(** The mathematical value of a digit string, most significant digit
    first. *)
Fixpoint digits_value_from (acc : N) (s : string) : N :=
  match s with
  | EmptyString => acc
  | String c r => digits_value_from (10 * acc + digit_val c) r
  end.

Definition digits_value (s : string) : N := digits_value_from 0 s.

(** [Number(s)] for a string of decimal digits: the value, correctly
    rounded. *)
Definition Number (s : string) : number := round53 (digits_value s).

(** The decimal digits of [n], most significant first; [fuel] bounds the
    number of digits and [acc] collects the digits already produced. *)
Fixpoint decimal_aux (fuel : nat) (n : N) (acc : string) : string :=
  match fuel with
  | O => acc
  | S f =>
      let acc' := String (digit_char (n mod 10)) acc in
      if n <? 10 then acc' else decimal_aux f (n / 10) acc'
  end.

Definition decimal (n : N) : string :=
  decimal_aux (S (N.to_nat (N.log2 n))) n "".

(** Number of decimal digits of [n] ([1] for [0]). *)
Definition num_digits (n : N) : nat := String.length (decimal n).

(** *** Number::toString, radix 10

    For a finite non-zero [x] the language picks integers [n], [k], [s] with
    [k] as small as possible such that [s * 10^(n-k)] converts back to [x],
    taking the [s] closest to [x] (the even one on a tie).  For an integral
    [x] the candidates with [k] significant digits are the two multiples of
    [10^j] around [x], where [j] counts the dropped digits. *)

Definition candidate (x p : N) : option N :=
  let lo := (x / p) * p in
  let hi := lo + p in
  let ok v := number_eqb (round53 v) (Fin x) in
  match ok lo, ok hi with
  | true, true =>
      if x - lo <? hi - x then Some lo
      else if hi - x <? x - lo then Some hi
      else if N.even (x / p) then Some lo else Some hi
  | true, false => Some lo
  | false, true => Some hi
  | false, false => None
  end.

(** Try to drop [j] digits, then [j-1], ..., then none. *)
Fixpoint shortest (x : N) (j : nat) : N :=
  match candidate x (10 ^ N.of_nat j) with
  | Some v => v
  | None =>
      match j with
      | O => x
      | S j' => shortest x j'
      end
  end.

(** The digits [s] of the language's definition: [v] without its trailing
    zeros. *)
Fixpoint strip_zeros (fuel : nat) (v : N) : N :=
  match fuel with
  | O => v
  | S f => if (v mod 10 =? 0) && (0 <? v) then strip_zeros f (v / 10) else v
  end.

(** With more than 21 digits: one digit, the remaining digits of [s] after
    a point if there are any, then [e+] and the exponent [n - 1]. *)
Definition exponent_form (v : N) : string :=
  let n := num_digits v in
  let s := decimal (strip_zeros n v) in
  let e := "e+" ++ decimal (N.of_nat (Nat.pred n)) in
  match s with
  | String d EmptyString => String d e
  | String d rest => String d ("." ++ rest ++ e)
  | EmptyString => e
  end.

Definition toString (x : number) : string :=
  match x with
  | Infinity => "Infinity"
  | Fin 0 => "0"
  | Fin x =>
      let v := shortest x (Nat.pred (num_digits x)) in
      if Nat.leb (num_digits v) 21 then decimal v else exponent_form v
  end.

End JSNumber.
Import JSNumber.

(** ** The version pattern

    [/^v(?<major>\d+)\.(?<minor>\d+)\.(?<revision>\d+)$/]: no flags, so [^]
    and [$] are the two ends of the input and [\d] is [0-9]. *)

Module VersionRegex.

(** The three named capture groups of a successful match. *)
Record Groups : Type := mkGroups
  { g_major : string; g_minor : string; g_revision : string }.

(** The longest prefix of digits, and what follows it. *)
Fixpoint span_digits (s : string) : string * string :=
  match s with
  | EmptyString => ("", "")
  | String c r =>
      if is_digit c
      then let (d, rest) := span_digits r in (String c d, rest)
      else ("", s)
  end.

(** A literal character of the pattern. *)
Definition lit (c : ascii) (s : string) : option string :=
  match s with
  | String c' r => if Ascii.eqb c c' then Some r else None
  | EmptyString => None
  end.

(** [\d+]: greedy; every [\d+] of the pattern is followed by a non-digit
    literal or by the end, so a shorter run never matches where the longest
    does not ([regex_match_iff] below). *)
Definition digits1 (s : string) : option (string * string) :=
  match span_digits s with
  | (EmptyString, _) => None
  | (d, rest) => Some (d, rest)
  end.

Definition regex_match (s : string) : option Groups :=
  match lit "v" s with
  | None => None
  | Some r0 =>
  match digits1 r0 with
  | None => None
  | Some (a, r1) =>
  match lit "." r1 with
  | None => None
  | Some r2 =>
  match digits1 r2 with
  | None => None
  | Some (b, r3) =>
  match lit "." r3 with
  | None => None
  | Some r4 =>
  match digits1 r4 with
  | None => None
  | Some (c, EmptyString) => Some (mkGroups a b c)
  | Some (_, String _ _) => None
  end end end end end end.

(** The language of the pattern, stated on its own: a [v], then three
    non-empty runs of digits separated by dots, and nothing else. *)
Definition digit_run (d : string) : Prop := d <> "" /\ all_digits d = true.

Definition in_pattern (s : string) (g : Groups) : Prop :=
  s = "v" ++ g_major g ++ "." ++ g_minor g ++ "." ++ g_revision g
  /\ digit_run (g_major g) /\ digit_run (g_minor g)
  /\ digit_run (g_revision g).

Definition well_formed_tag (s : string) : Prop := exists g, in_pattern s g.

(** No digit at the head: where a greedy [\d+] stops. *)
Definition stops (r : string) : Prop :=
  match r with
  | EmptyString => True
  | String c _ => is_digit c = false
  end.

End VersionRegex.
Import VersionRegex.

(** ** Version triples *)

Record Version : Type := mkVersion
  { major : number; minor : number; revision : number }.

Definition sentinel : Version := mkVersion (Fin 0) (Fin 0) (Fin 0).

(** [parseVersionString]: [match.groups] is defined whenever a pattern with
    named groups matches, so only [match === null] leads to the sentinel. *)
Definition parseVersionString (versionString : string) : Version :=
  match regex_match versionString with
  | None => sentinel
  | Some g =>
      mkVersion (Number (g_major g)) (Number (g_minor g))
                (Number (g_revision g))
  end.

(** The template literal [`v${version.major}.${version.minor}.${version.revision}`]
    of [saveTasmotaVersion] and of the constructor's log line. *)
Definition version_text (v : Version) : string :=
  "v" ++ toString (major v) ++ "." ++ toString (minor v) ++ "."
      ++ toString (revision v).

(** The same without the leading [v], as the log lines of
    [checkTasmotaReleases] print it. *)
Definition version_dotted (v : Version) : string :=
  toString (major v) ++ "." ++ toString (minor v) ++ "."
      ++ toString (revision v).

(** The expression assigned to [updateAvailable] in [checkTasmotaReleases];
    [&&] binds tighter than [||]. *)
Definition updateAvailable (last newVersion : Version) : bool :=
  number_ltb (major last) (major newVersion)
  || (number_eqb (major last) (major newVersion)
      && number_ltb (minor last) (minor newVersion))
  || (number_eqb (major last) (major newVersion)
      && number_eqb (minor last) (minor newVersion)
      && number_ltb (revision last) (revision newVersion)).

(** *** The ordering as the specification words it

    [compare] is the lexicographic comparison on (major, minor, revision),
    and [isNewer old new] holds when [compare new old] is greater. *)

Definition number_compare (a b : number) : comparison :=
  match a, b with
  | Fin x, Fin y => x ?= y
  | Fin _, Infinity => Lt
  | Infinity, Fin _ => Gt
  | Infinity, Infinity => Eq
  end.

Definition version_compare (a b : Version) : comparison :=
  match number_compare (major a) (major b) with
  | Eq =>
      match number_compare (minor a) (minor b) with
      | Eq => number_compare (revision a) (revision b)
      | c => c
      end
  | c => c
  end.

Definition isNewer (old new : Version) : Prop :=
  version_compare new old = Gt.

(** ** The runtime around the class: exceptions, effects, collaborators *)

Module Runtime.

Inductive Exn : Type :=
| TypeError (msg : string)
| SyntaxError (msg : string)
| Error (msg : string).

(** [String(error)], as string concatenation and template literals apply
    it. *)
Definition exn_text (e : Exn) : string :=
  match e with
  | TypeError m => "TypeError: " ++ m
  | SyntaxError m => "SyntaxError: " ++ m
  | Error m => "Error: " ++ m
  end.

(** What [JSON.parse] returns.  An object keeps its members in the order of
    the text; a later member of the same name wins. *)
Inductive JSValue : Type :=
| JNull
| JBool (b : bool)
| JNumber (literal : string)
| JString (s : string)
| JArray (items : list JSValue)
| JObject (members : list (string * JSValue)).

(** A response body enters the class only through [JSON.parse(result.body)]:
    the text is represented by what [JSON.parse] makes of it. *)
Inductive Body : Type :=
| NotJSON
| JSON (info : JSValue).

Record FetchResult : Type := mkFetchResult
  { statusCode : N;
    headers : list (string * string);
    body : Body }.

(** A promise as the code that awaits it finds it: resolved, rejected, or
    never settled. *)
Inductive Promise (A : Type) : Type :=
| Resolved (a : A)
| Rejected (e : Exn)
| Pending.
Arguments Resolved {A} a.
Arguments Rejected {A} e.
Arguments Pending {A}.

(** The tokens passed to [tasmotaUpdateTrigger.trigger]. *)
Record Tokens : Type := mkTokens
  { new_major : number; new_minor : number; new_revision : number;
    old_major : number; old_minor : number; old_revision : number }.

(** What the class does to its collaborators, in order. *)
Inductive Event : Type :=
| AppLog (msg : string)
| AppError (msg : string)
| CardTrigger (tokens : Tokens)
| WriteFileSync (data : string).

(** [fs.writeFileSync] either replaces the file or throws; a failed write
    leaves the file in a state the class does not control. *)
Inductive WriteOutcome : Type :=
| WriteOk
| WriteFails (e : Exn) (residue : option string).

(** What the collaborators answer during one check cycle: the promise of
    the HTTPS request (resolved when the response has ended, rejected when
    the request emits an error, pending for ever otherwise: see [Https] and
    [request_promise] below), the promise of the trigger card, and the file
    system. *)
Record Env : Type := mkEnv
  { makeHttpsRequest : Promise FetchResult;
    trigger : Promise unit;
    writeFileSync : WriteOutcome }.

(** The mutable state: the file [/userdata/tasmota.ver] (absent or its
    text) and the field [this.lastTasmotaVersion], which the code compares
    with [null]. *)
Record World : Type := mkWorld
  { file : option string;
    lastTasmotaVersion : option Version }.

(** How a call ends: it returns, it throws, or (an [async] function) it
    stays suspended at an [await] whose promise is never settled. *)
Inductive Outcome (A : Type) : Type :=
| Returns (a : A)
| Throws (e : Exn)
| Suspended.
Arguments Returns {A} a.
Arguments Throws {A} e.
Arguments Suspended {A}.

(** State, an event log, exceptions and suspension. *)
Definition M (A : Type) : Type := World -> Outcome A * World * list Event.

Definition ret {A} (a : A) : M A := fun w => (Returns a, w, []).

Definition throw {A} (e : Exn) : M A := fun w => (Throws e, w, []).

Definition bind {A B} (m : M A) (k : A -> M B) : M B :=
  fun w =>
    match m w with
    | (Returns a, w1, ev1) =>
        match k a w1 with
        | (r, w2, ev2) => (r, w2, (ev1 ++ ev2)%list)
        end
    | (Throws e, w1, ev1) => (Throws e, w1, ev1)
    | (Suspended, w1, ev1) => (Suspended, w1, ev1)
    end.

(** [try { m } catch (error) { handler(error) }], and [p.catch(handler)] on
    an awaited promise: nothing is caught while the promise is pending. *)
Definition try_catch {A} (m : M A) (handler : Exn -> M A) : M A :=
  fun w =>
    match m w with
    | (Returns a, w1, ev1) => (Returns a, w1, ev1)
    | (Throws e, w1, ev1) =>
        match handler e w1 with
        | (r, w2, ev2) => (r, w2, (ev1 ++ ev2)%list)
        end
    | (Suspended, w1, ev1) => (Suspended, w1, ev1)
    end.

Definition emit (e : Event) : M unit := fun w => (Returns tt, w, [e]).

Definition app_log (msg : string) : M unit := emit (AppLog msg).
Definition app_error (msg : string) : M unit := emit (AppError msg).

Definition get_lastTasmotaVersion : M (option Version) :=
  fun w => (Returns (lastTasmotaVersion w), w, []).

Definition set_lastTasmotaVersion (v : option Version) : M unit :=
  fun w => (Returns tt, mkWorld (file w) v, []).

(** [fs.existsSync] followed by [fs.readFileSync]: [None] when the file
    does not exist. *)
Definition fs_read : M (option string) :=
  fun w => (Returns (file w), w, []).

Definition fs_writeFileSync (o : WriteOutcome) (data : string) : M unit :=
  fun w =>
    match o with
    | WriteOk =>
        (Returns tt, mkWorld (Some data) (lastTasmotaVersion w),
         [WriteFileSync data])
    | WriteFails e residue =>
        (Throws e, mkWorld residue (lastTasmotaVersion w),
         [WriteFileSync data])
    end.

(** [await p]: the value of a resolved promise, the reason of a rejected
    one thrown, no continuation for a promise that stays pending. *)
Definition await {A} (p : Promise A) : M A :=
  match p with
  | Resolved a => ret a
  | Rejected e => throw e
  | Pending => fun w => (Suspended, w, [])
  end.

Definition JSON_parse (b : Body) : M JSValue :=
  match b with
  | JSON info => ret info
  | NotJSON => throw (SyntaxError "Unexpected token in JSON")
  end.

(** The member of that name that [JSON.parse] keeps: the last one. *)
Fixpoint member (name : string) (ms : list (string * JSValue))
  : option JSValue :=
  match ms with
  | [] => None
  | (k, v) :: rest =>
      match member name rest with
      | Some v' => Some v'
      | None => if String.eqb k name then Some v else None
      end
  end.

(** [info.tag_name]: [None] is [undefined]; reading a property of [null]
    throws, the other values have no such property. *)
Definition get_tag_name (info : JSValue) : M (option JSValue) :=
  match info with
  | JNull => throw (TypeError "Cannot read properties of null")
  | JObject ms => ret (member "tag_name" ms)
  | _ => ret None
  end.

End Runtime.
Import Runtime.

Declare Scope checker_scope.
Delimit Scope checker_scope with checker.
Notation "x <- m ;; k" := (bind m (fun x => k))
  (at level 61, m at next level, right associativity) : checker_scope.
Notation "m ;; k" := (bind m (fun _ => k))
  (at level 61, right associativity) : checker_scope.
Local Open Scope checker_scope.

(** ** The class [TasmotaVersionChecker] *)

Module TasmotaVersionChecker.

(** [this.parseVersionString(info.tag_name)] on a value that the type
    checker never saw ([info] is [any]): [versionString.match] exists on
    strings only. *)
Definition call_parseVersionString (arg : option JSValue) : M Version :=
  match arg with
  | Some (JString s) => ret (parseVersionString s)
  | None =>
      throw (TypeError "Cannot read properties of undefined (reading 'match')")
  | Some JNull =>
      throw (TypeError "Cannot read properties of null (reading 'match')")
  | Some _ => throw (TypeError "versionString.match is not a function")
  end.

(** [result?.statusCode] in a template literal. *)
Definition status_text (result : option FetchResult) : string :=
  match result with
  | None => "undefined"
  | Some r => decimal (statusCode r)
  end.

Definition getLatestTasmotaVersion (env : Env) : M (option Version) :=
  result <- try_catch
              (r <- await (makeHttpsRequest env) ;; ret (Some r))
              (fun error =>
                 app_log ("makeHttpsRequest error: " ++ exn_text error) ;;
                 ret None) ;;
  match result with
  | Some r =>
      if statusCode r =? 200 then
        info <- JSON_parse (body r) ;;
        tag_name <- get_tag_name info ;;
        version <- call_parseVersionString tag_name ;;
        app_log ("Latest Tasmota Version on Github: " ++ version_text version) ;;
        ret (Some version)
      else
        app_error ("Error while checking tasmota releases, staus: "
                     ++ status_text result) ;;
        ret None
  | None =>
      app_error ("Error while checking tasmota releases, staus: "
                   ++ status_text result) ;;
      ret None
  end.

Definition saveTasmotaVersion (env : Env) (version : Version) : M unit :=
  try_catch
    (fs_writeFileSync (writeFileSync env) (version_text version))
    (fun error =>
       app_log ("Error writing tasmota version file: " ++ exn_text error)).

Definition loadTasmotaVersionFromFile : M Version :=
  f <- fs_read ;;
  match f with
  | None =>
      app_log "loadTasmotaVersion: No version file exists!" ;;
      ret (mkVersion (Fin 0) (Fin 0) (Fin 0))
  | Some tempStr => ret (parseVersionString tempStr)
  end.

Definition tokens_of (newVersion last : Version) : Tokens :=
  mkTokens (major newVersion) (minor newVersion) (revision newVersion)
           (major last) (minor last) (revision last).

Definition checkTasmotaReleases (env : Env) : M unit :=
  app_log "Checking tasmota releases..." ;;
  newVersion <- getLatestTasmotaVersion env ;;
  match newVersion with
  | Some newVersion =>
      last <- get_lastTasmotaVersion ;;
      saveVersion <-
        match last with
        | None =>
            app_log ("Latest Tasmota release detected "
                       ++ version_dotted newVersion
                       ++ " (no saved version found)") ;;
            ret true
        | Some last =>
            if updateAvailable last newVersion then
              emit (CardTrigger (tokens_of newVersion last)) ;;
              await (trigger env) ;;
              app_log ("New Tasmota version available "
                         ++ version_dotted newVersion
                         ++ " (old " ++ version_dotted last ++ ")") ;;
              ret true
            else ret false
        end ;;
      if saveVersion : bool then
        saveTasmotaVersion env newVersion ;;
        set_lastTasmotaVersion (Some newVersion)
      else ret tt
  | None => ret tt
  end.

(** The constructor: load the stored version, arm the timers (see
    [check_time]), log. *)
Definition constructor : M unit :=
  v <- loadTasmotaVersionFromFile ;;
  set_lastTasmotaVersion (Some v) ;;
  app_log ("Tasmota Version Checker initialized. Latest Tasmota Version - "
             ++ version_text v).

(** The world right after [new TasmotaVersionChecker(app)] in a process
    that finds [f] at [/userdata/tasmota.ver]; the field has no value before
    the constructor assigns it. *)
Definition start (f : option string) : World :=
  snd (fst (constructor (mkWorld f None))).

(** [setTimeout(..., 300000)] runs the first check and arms
    [setInterval(..., 86400000)]: the time in ms, after construction, of the
    check number [i]. *)
Definition check_time (i : nat) : N := 300000 + N.of_nat i * 86400000.

(** One timer tick: [this.checkTasmotaReleases().then()]; a rejection of
    that promise is not handled, a cycle that stays suspended holds nothing
    back, and the state stays as the cycle left it. *)
Definition tick (env : Env) (w : World) : World :=
  snd (fst (checkTasmotaReleases env w)).

Definition tick_events (env : Env) (w : World) : list Event :=
  snd (checkTasmotaReleases env w).

(** The ticks of a process, one environment per tick; the ticks are a day
    apart and each cycle is taken to have ended before the next begins. *)
Fixpoint run (envs : list Env) (w : World) : World :=
  match envs with
  | [] => w
  | env :: rest => run rest (tick env w)
  end.

End TasmotaVersionChecker.
Import TasmotaVersionChecker.

(** ** Vocabulary of the properties *)

(** A field that the template literal prints in plain digits: a double
    below [10^21] (from there on the language switches to exponent
    notation). *)
Definition plain_number (x : number) : bool :=
  match x with
  | Fin n => is_double n && (n <? 10 ^ 21)
  | Infinity => false
  end.

Definition plain_version (v : Version) : bool :=
  plain_number (major v) && plain_number (minor v)
  && plain_number (revision v).

Definition is_trigger (e : Event) : bool :=
  match e with CardTrigger _ => true | _ => false end.

Definition is_write (e : Event) : bool :=
  match e with WriteFileSync _ => true | _ => false end.

(** The calls of the trigger card and of [fs.writeFileSync] among the
    events of a cycle. *)
Definition triggers (evs : list Event) : list Event := filter is_trigger evs.
Definition writes (evs : list Event) : list Event := filter is_write evs.

(** A triple whose fields are non-negative integers that the number type
    holds. *)
Definition integer_number (x : number) : bool :=
  match x with
  | Fin n => is_double n
  | Infinity => false
  end.

Definition integer_version (v : Version) : bool :=
  integer_number (major v) && integer_number (minor v)
  && integer_number (revision v).

Definition version_of (a b c : N) : Version :=
  mkVersion (Fin a) (Fin b) (Fin c).

(** A response with status 200 whose body is an object with the given
    [tag_name]. *)
Definition release_response (tag : JSValue) : FetchResult :=
  mkFetchResult 200 [] (JSON (JObject [("tag_name", tag)])).

(** The first event of every cycle. *)
Definition checking : Event := AppLog "Checking tasmota releases...".

(** Environments of a cycle: the release endpoint answers with that tag and
    everything else works; the request fails; the file cannot be written. *)
Definition online (tag : JSValue) : Env :=
  mkEnv (Resolved (release_response tag)) (Resolved tt) WriteOk.

Definition offline : Env :=
  mkEnv (Rejected (Error "socket hang up")) (Resolved tt) WriteOk.

Definition read_only (tag : JSValue) : Env :=
  mkEnv (Resolved (release_response tag)) (Resolved tt)
        (WriteFails (Error "EACCES: permission denied") None).

(** ** [getAllFiles]: the walk over a directory tree *)

Module DirectoryWalk.

(** What [fs.statSync] and [fs.readdirSync] find at a path: a file (anything
    that is not a directory), a directory with its entries in the order
    [readdirSync] lists them, a name that cannot be resolved (a dangling
    link), or a directory that may not be read.  The tree is finite: links
    that lead back into a directory above them are not represented. *)
Inductive Node : Type :=
| File
| Dir (entries : list (string * Node))
| Missing
| Locked.

(** The outcome of a call together with the array that was passed in:
    [push] changes that array in place, so the caller sees the paths pushed
    before an exception as well.  ([arrayOfFiles || []] is the array itself
    for every array.) *)
Inductive Walk : Type :=
| Walked (arrayOfFiles : list string)
| Failed (e : Exn) (arrayOfFiles : list string).

Definition scandir_error (code dirPath : string) : Exn :=
  Error (code ++ ", scandir '" ++ dirPath ++ "'").

Definition stat_error (path : string) : Exn :=
  Error ("ENOENT: no such file or directory, stat '" ++ path ++ "'").

(** [dirPath + "/" + file] *)
Definition child_path (dirPath file : string) : string :=
  dirPath ++ "/" ++ file.

Fixpoint getAllFiles (dirPath : string) (node : Node)
         (arrayOfFiles : list string) {struct node} : Walk :=
  match node with
  | Dir files =>
      (fix forEach (files : list (string * Node))
           (arrayOfFiles : list string) {struct files} : Walk :=
         match files with
         | [] => Walked arrayOfFiles
         | (file, child) :: rest =>
             match child with
             | Missing =>
                 Failed (stat_error (child_path dirPath file)) arrayOfFiles
             | File =>
                 forEach rest (arrayOfFiles ++ [child_path dirPath file])%list
             | _ =>
                 match getAllFiles (child_path dirPath file) child
                                   arrayOfFiles with
                 | Walked arrayOfFiles' => forEach rest arrayOfFiles'
                 | Failed e arrayOfFiles' => Failed e arrayOfFiles'
                 end
             end
         end) files arrayOfFiles
  | File => Failed (scandir_error "ENOTDIR: not a directory" dirPath)
                   arrayOfFiles
  | Missing =>
      Failed (scandir_error "ENOENT: no such file or directory" dirPath)
             arrayOfFiles
  | Locked => Failed (scandir_error "EACCES: permission denied" dirPath)
                     arrayOfFiles
  end.

(** The array after the call, whatever the outcome. *)
Definition array_after (r : Walk) : list string :=
  match r with
  | Walked a => a
  | Failed _ a => a
  end.

(** The files below a node, counted on the tree. *)
Fixpoint count_files (node : Node) : nat :=
  match node with
  | File => 1%nat
  | Dir entries =>
      (fix sum (es : list (string * Node)) : nat :=
         match es with
         | [] => 0%nat
         | (_, child) :: rest => (count_files child + sum rest)%nat
         end) entries
  | Missing | Locked => 0%nat
  end.

(** A tree that can be read throughout: nothing missing, nothing locked. *)
Fixpoint readable (node : Node) : bool :=
  match node with
  | File => true
  | Dir entries =>
      (fix all (es : list (string * Node)) : bool :=
         match es with
         | [] => true
         | (_, child) :: rest => readable child && all rest
         end) entries
  | Missing | Locked => false
  end.

Definition is_dir (node : Node) : bool :=
  match node with Dir _ => true | _ => false end.

(** The paths of the files at and below a node whose own path is [path]:
    a file is at its path, and the files of a directory are those of its
    entries, each entry at the directory's path joined with its name, in
    the order of the listing. *)
Fixpoint files_below (path : string) (node : Node) : list string :=
  match node with
  | File => [path]
  | Dir entries =>
      (fix each (es : list (string * Node)) : list string :=
         match es with
         | [] => []
         | (name, child) :: rest =>
             (files_below (child_path path name) child ++ each rest)%list
         end) entries
  | Missing | Locked => []
  end.

(** [file_at path node p]: going down from [node], whose path is [path],
    through entries of directories, one reaches a file whose path is
    [p]. *)
Inductive file_at : string -> Node -> string -> Prop :=
| file_here (p : string) : file_at p File p
| file_inside (d : string) (es : list (string * Node)) (name : string)
              (child : Node) (p : string) :
    In (name, child) es ->
    file_at (child_path d name) child p ->
    file_at d (Dir es) p.

(** [s.startsWith(p)] *)
Fixpoint starts_with (p s : string) : bool :=
  match p, s with
  | EmptyString, _ => true
  | String a p', String b s' => Ascii.eqb a b && starts_with p' s'
  | String _ _, EmptyString => false
  end.

End DirectoryWalk.

(** ** [makeHttpsRequest]: the promise around one request *)

Module Https.

(** What the promise resolves with: [body] is the text collected from the
    chunks. *)
Record Result : Type := mkResult
  { statusCode : N;
    headers : list (string * string);
    body : string }.

(** What the request and its response emit, in order: the response (with
    [res.statusCode], possibly undefined), a chunk (as the string that
    [resBody += chunk] appends), the end of the response, the timeout, an
    error of the request. *)
Inductive Emitted : Type :=
| Response (status : option N) (hs : list (string * string))
| Data (chunk : string)
| End_
| Timeout
| Failure (e : Exn).

(** The closure state of one call: the promise ([None] while pending), the
    response seen with its [resBody], the two [once] listeners, and whether
    [request.destroy()] was called. *)
Record State : Type := mkState
  { promise : option (Promise Result);
    res : option (option N * list (string * string) * string);
    end_listener : bool;
    error_listener : bool;
    destroyed : bool }.

(** After the executor has run: the error listener is registered and the
    request sent. *)
Definition initial : State := mkState None None false true false.

(** [resolve] and [reject] settle a promise once. *)
Definition settle (p : Promise Result) (st : State) : State :=
  match promise st with
  | None => mkState (Some p) (res st) (end_listener st) (error_listener st)
                    (destroyed st)
  | Some _ => st
  end.

Definition on (ev : Emitted) (st : State) : State :=
  match ev with
  | Response status hs =>
      match res st with
      | None => mkState (promise st) (Some (status, hs, "")) true
                        (error_listener st) (destroyed st)
      | Some _ => st
      end
  | Data chunk =>
      match res st with
      | Some (status, hs, resBody) =>
          mkState (promise st) (Some (status, hs, resBody ++ chunk))
                  (end_listener st) (error_listener st) (destroyed st)
      | None => st
      end
  | End_ =>
      match res st, end_listener st with
      | Some (status, hs, resBody), true =>
          settle (Resolved
                    (mkResult (match status with Some c => c | None => 404 end)
                              hs resBody))
                 (mkState (promise st) (res st) false (error_listener st)
                          (destroyed st))
      | _, _ => st
      end
  | Timeout =>
      mkState (promise st) (res st) (end_listener st) (error_listener st) true
  | Failure e =>
      if error_listener st then
        settle (Rejected e)
               (mkState (promise st) (res st) (end_listener st) false
                        (destroyed st))
      else st
  end.

Fixpoint deliver (evs : list Emitted) (st : State) : State :=
  match evs with
  | [] => st
  | ev :: rest => deliver rest (on ev st)
  end.

(** The promise that [makeHttpsRequest] returned, after the request has
    emitted [evs]. *)
Definition makeHttpsRequest (evs : list Emitted)
  : option (Promise Result) :=
  promise (deliver evs initial).

(** The two events on which a listener settles the promise. *)
Definition settles (ev : Emitted) : bool :=
  match ev with End_ | Failure _ => true | _ => false end.

(** An event that no listener settles on. *)
Definition quiet (ev : Emitted) : bool := negb (settles ev).

Definition chunk_of (ev : Emitted) : string :=
  match ev with Data chunk => chunk | _ => "" end.

(** The chunks of a run of events, joined in order. *)
Fixpoint joined (evs : list Emitted) : string :=
  match evs with
  | [] => ""
  | ev :: rest => chunk_of ev ++ joined rest
  end.

End Https.

(** ** Vocabulary of the further properties *)

(** The promise that a cycle awaits, from what its request emits: the
    promise of [Https.makeHttpsRequest], with the body text replaced by
    what [JSON.parse] makes of it ([parse]). *)
Definition request_promise (parse : string -> Body)
           (evs : list Https.Emitted) : Promise FetchResult :=
  match Https.makeHttpsRequest evs with
  | Some (Resolved r) =>
      Resolved (mkFetchResult (Https.statusCode r) (Https.headers r)
                              (parse (Https.body r)))
  | Some (Rejected e) => Rejected e
  | Some Pending => Pending
  | None => Pending
  end.
(* [resolve] and [reject] store a resolved or a rejected promise only, so
   [Some Pending] does not arise. *)

(** A response that begins and then stalls: status 200, a first chunk, and
    then the timeout, whose callback destroys the request; the request
    emits no error after its response has begun. *)
Definition stalled_response : list Https.Emitted :=
  [Https.Response (Some 200) []; Https.Data "{"; Https.Timeout].

(** The cycle of such a request; the trigger card and the file are in
    order. *)
Definition stalled (parse : string -> Body) : Env :=
  mkEnv (request_promise parse stalled_response) (Resolved tt) WriteOk.

(** A cycle whose write, if any, succeeds. *)
Definition write_ok (env : Env) : bool :=
  match writeFileSync env with WriteOk => true | WriteFails _ _ => false end.

(** The file mirrors the field, in a process started on the file [f]:
    either nothing was saved since the start, or the file holds the text of
    the version in the field. *)
Definition mirrored (f : option string) (w : World) : Prop :=
  (file w = f /\ lastTasmotaVersion w = lastTasmotaVersion (start f))
  \/ exists v, lastTasmotaVersion w = Some v
               /\ file w = Some (version_text v).

(** The [tag_name] of a body when it is a string: the body is JSON, an
    object, and the member it keeps under that name is a string. *)
Definition string_tag (b : Body) : option string :=
  match b with
  | JSON (JObject ms) =>
      match member "tag_name" ms with
      | Some (JString s) => Some s
      | _ => None
      end
  | _ => None
  end.

(** ** Decimal digits and [Number] *)

Section Decimal.

Lemma append_assoc (a b c : string) : (a ++ b) ++ c = a ++ (b ++ c).
Proof. induction a as [|x a IH]; simpl; congruence. Qed.

Lemma append_nil_r (a : string) : a ++ "" = a.
Proof. induction a as [|x a IH]; simpl; congruence. Qed.

Lemma length_append (a b : string) :
  String.length (a ++ b) = (String.length a + String.length b)%nat.
Proof. induction a as [|x a IH]; simpl; congruence. Qed.

Lemma digit_val_char (d : N) : d < 10 -> digit_val (digit_char d) = d.
Proof.
  intros H. unfold digit_val, digit_char.
  rewrite N_ascii_embedding by lia. lia.
Qed.

Lemma is_digit_char (d : N) : d < 10 -> is_digit (digit_char d) = true.
Proof.
  intros H. unfold is_digit, digit_char.
  rewrite N_ascii_embedding by lia.
  apply andb_true_intro; split; apply N.leb_le; lia.
Qed.

Lemma all_digits_app (a b : string) :
  all_digits (a ++ b) = all_digits a && all_digits b.
Proof.
  induction a as [|c a IH]; simpl; [reflexivity|].
  rewrite IH. apply andb_assoc.
Qed.

Lemma digits_value_from_app (a b : string) (acc : N) :
  digits_value_from acc (a ++ b)
  = digits_value_from (digits_value_from acc a) b.
Proof.
  revert acc. induction a as [|c a IH]; intros acc; simpl; [reflexivity|].
  apply IH.
Qed.

(** What [decimal_aux] produces with enough fuel: a non-empty run of digits
    in front of the accumulator, whose value is [n]. *)
Lemma decimal_aux_spec (f : nat) :
  forall (n : N) (acc : string),
    n < 10 ^ N.of_nat (S f) ->
    exists d,
      decimal_aux (S f) n acc = d ++ acc
      /\ d <> "" /\ all_digits d = true
      /\ forall a, digits_value_from a d
                   = a * 10 ^ N.of_nat (String.length d) + n.
Proof.
  induction f as [|f IH]; intros n acc Hn.
  - change (10 ^ N.of_nat 1) with 10 in Hn.
    exists (String (digit_char (n mod 10)) "").
    cbn [decimal_aux append all_digits digits_value_from String.length].
    apply N.ltb_lt in Hn as Hb. rewrite Hb.
    rewrite N.mod_small by exact Hn.
    repeat split.
    + discriminate.
    + rewrite is_digit_char by exact Hn. reflexivity.
    + intros a. rewrite digit_val_char by exact Hn.
      change (N.of_nat 1) with 1. rewrite N.pow_1_r. lia.
  - cbn [decimal_aux]. destruct (n <? 10) eqn:Hb.
    + apply N.ltb_lt in Hb.
      exists (String (digit_char (n mod 10)) "").
      rewrite N.mod_small by exact Hb.
      repeat split.
      * discriminate.
      * cbn [all_digits]. rewrite is_digit_char by exact Hb. reflexivity.
      * intros a. cbn [digits_value_from String.length].
        rewrite digit_val_char by exact Hb.
        change (N.of_nat 1) with 1. rewrite N.pow_1_r. lia.
    + apply N.ltb_ge in Hb.
      assert (Hq : n / 10 < 10 ^ N.of_nat (S f)).
      { apply N.Div0.div_lt_upper_bound.
        rewrite <- N.pow_succ_r', <- Nnat.Nat2N.inj_succ. exact Hn. }
      destruct (IH (n / 10) (String (digit_char (n mod 10)) acc) Hq)
        as (d & Hd & Hne & Hall & Hval).
      assert (Hm : n mod 10 < 10) by (apply N.mod_lt; lia).
      exists (d ++ String (digit_char (n mod 10)) "").
      repeat split.
      * change (decimal_aux (S f) (n / 10)
                  (String (digit_char (n mod 10)) acc)
                = (d ++ String (digit_char (n mod 10)) "") ++ acc).
        rewrite Hd, append_assoc. reflexivity.
      * destruct d; [congruence | discriminate].
      * rewrite all_digits_app, Hall. cbn [all_digits].
        rewrite is_digit_char by exact Hm. reflexivity.
      * intros a. rewrite digits_value_from_app, Hval.
        cbn [digits_value_from].
        rewrite digit_val_char by exact Hm.
        rewrite length_append. cbn [String.length].
        replace (N.of_nat (String.length d + 1))
          with (N.succ (N.of_nat (String.length d))) by lia.
        rewrite N.pow_succ_r'.
        pose proof (N.div_mod n 10 ltac:(lia)). lia.
Qed.

Lemma decimal_fuel (n : N) : n < 10 ^ N.of_nat (S (N.to_nat (N.log2 n))).
Proof.
  rewrite Nnat.Nat2N.inj_succ, Nnat.N2Nat.id.
  destruct n as [|p]; [reflexivity|].
  apply N.lt_le_trans with (2 ^ N.succ (N.log2 (N.pos p))).
  - apply N.log2_spec. lia.
  - apply N.pow_le_mono_l. lia.
Qed.

Lemma decimal_spec (n : N) :
  decimal n <> "" /\ all_digits (decimal n) = true
  /\ digits_value (decimal n) = n.
Proof.
  unfold decimal, digits_value.
  destruct (decimal_aux_spec _ n "" (decimal_fuel n))
    as (d & Hd & Hne & Hall & Hval).
  rewrite Hd, append_nil_r.
  repeat split; [exact Hne | exact Hall | apply (Hval 0)].
Qed.

(** A number below [10^m] has at most [m] digits. *)
Lemma decimal_aux_length (f : nat) :
  forall (m : nat) (n : N) (acc : string),
    n < 10 ^ N.of_nat m -> (1 <= m)%nat ->
    (String.length (decimal_aux f n acc) <= m + String.length acc)%nat.
Proof.
  induction f as [|f IH]; intros m n acc Hn Hm; simpl.
  - lia.
  - destruct (n <? 10) eqn:Hb; simpl.
    + lia.
    + apply N.ltb_ge in Hb.
      destruct m as [|[|m]]; [lia | change (10 ^ N.of_nat 1) with 10 in Hn; lia |].
      assert (Hq : n / 10 < 10 ^ N.of_nat (S m)).
      { apply N.Div0.div_lt_upper_bound.
        rewrite <- N.pow_succ_r', <- Nnat.Nat2N.inj_succ. exact Hn. }
      specialize (IH (S m) (n / 10) (String (digit_char (n mod 10)) acc) Hq
                     ltac:(lia)).
      simpl in IH. lia.
Qed.

Lemma num_digits_le (m : nat) (n : N) :
  n < 10 ^ N.of_nat m -> (1 <= m)%nat -> (num_digits n <= m)%nat.
Proof.
  intros Hn Hm. unfold num_digits, decimal.
  pose proof (decimal_aux_length (S (N.to_nat (N.log2 n))) m n "" Hn Hm) as H.
  change (String.length "") with 0%nat in H.
  rewrite Nat.add_0_r in H. exact H.
Qed.

End Decimal.

(** ** The number model on known values *)

Example toString_known_values :
  toString (Fin (2 ^ 53)) = "9007199254740992"
  /\ toString (Fin (2 ^ 63)) = "9223372036854776000"
  /\ toString (Number "123456789012345678901") = "123456789012345680000"
  /\ toString (Fin (10 ^ 21)) = "1e+21"
  /\ toString (Fin (2 ^ 70)) = "1.1805916207174113e+21"
  /\ toString (Fin ((2 ^ 53 - 1) * 2 ^ 971)) = "1.7976931348623157e+308"
  /\ Number "9007199254740993" = Fin 9007199254740992
  /\ Number "0012" = Fin 12.
Proof. vm_compute. repeat split. Qed.

(** ** Rounding to a double *)

Section Rounding.

(** A multiple [k * 2^e] with [2^52 <= k <= 2^53] is its own rounding,
    unless it overflows. *)
Lemma round53_multiple (k e : N) :
  1 <= e -> 2 ^ 52 <= k <= 2 ^ 53 -> (2 ^ 1024 <=? k * 2 ^ e) = false ->
  round53 (k * 2 ^ e) = Fin (k * 2 ^ e).
Proof.
  intros He Hk Hov.
  set (T := 2 ^ 52) in *.
  assert (HT : 2 ^ 53 = 2 * T) by reflexivity.
  rewrite HT in Hk.
  assert (HP : 2 <= 2 ^ e).
  { change 2 with (2 ^ 1) at 1. apply N.pow_le_mono_r; lia. }
  assert (Hpos : 0 < 2 ^ e) by lia.
  unfold round53.
  assert (Hbig : (k * 2 ^ e <? 2 ^ 53) = false).
  { apply N.ltb_ge. rewrite HT. nia. }
  rewrite Hbig.
  destruct (N.eq_dec k (2 * T)) as [-> | Hne].
  - (* the significand reached 2^53: one more binade *)
    assert (Hlog : N.log2 (2 * T * 2 ^ e) = 53 + e).
    { replace (2 * T * 2 ^ e) with (2 ^ (53 + e)).
      - apply N.log2_pow2. lia.
      - rewrite N.pow_add_r, HT. reflexivity. }
    rewrite Hlog. replace (53 + e - 52) with (e + 1) by lia.
    replace (2 * T * 2 ^ e) with (T * 2 ^ (e + 1))
      by (rewrite N.pow_add_r, N.pow_1_r; lia).
    assert (Hp2 : 2 ^ (e + 1) <> 0) by (apply N.pow_nonzero; lia).
    rewrite N.div_mul by exact Hp2. rewrite N.Div0.mod_mul.
    replace (e + 1 - 1) with e by lia.
    assert (H1 : (2 ^ e <? 0) = false) by (apply N.ltb_ge; lia).
    assert (H2 : (0 =? 2 ^ e) = false) by (apply N.eqb_neq; lia).
    rewrite H1, H2. cbn [orb andb].
    replace (T * 2 ^ (e + 1)) with (2 * T * 2 ^ e)
      by (rewrite N.pow_add_r, N.pow_1_r; lia).
    rewrite Hov. reflexivity.
  - assert (Hlog : N.log2 (k * 2 ^ e) = 52 + e).
    { apply N.log2_unique; [lia|]. split.
      - rewrite N.pow_add_r. fold T. nia.
      - rewrite N.pow_succ_r', N.pow_add_r. fold T. nia. }
    rewrite Hlog. replace (52 + e - 52) with e by lia.
    assert (Hp2 : 2 ^ e <> 0) by lia.
    rewrite N.div_mul by exact Hp2. rewrite N.Div0.mod_mul.
    assert (Hh : 0 < 2 ^ (e - 1)).
    { apply N.neq_0_lt_0, N.pow_nonzero. lia. }
    assert (H1 : (2 ^ (e - 1) <? 0) = false) by (apply N.ltb_ge; lia).
    assert (H2 : (0 =? 2 ^ (e - 1)) = false) by (apply N.eqb_neq; lia).
    rewrite H1, H2. cbn [orb andb]. rewrite Hov. reflexivity.
Qed.

Lemma round53_idempotent (m v : N) :
  round53 m = Fin v -> round53 v = Fin v.
Proof.
  unfold round53 at 1. destruct (m <? 2 ^ 53) eqn:Hm.
  - intros [= <-]. unfold round53. rewrite Hm. reflexivity.
  - apply N.ltb_ge in Hm.
    set (e := N.log2 m - 52).
    set (q := m / 2 ^ e). set (r := m mod 2 ^ e).
    set (q' := if (2 ^ (e - 1) <? r) || (r =? 2 ^ (e - 1)) && N.odd q
               then q + 1 else q).
    cbv zeta.
    destruct (2 ^ 1024 <=? q' * 2 ^ e) eqn:Hov; [discriminate|].
    intros [= <-].
    assert (Hlog : 53 <= N.log2 m).
    { change 53 with (N.log2 (2 ^ 53)). apply N.log2_le_mono. exact Hm. }
    assert (He : N.log2 m = 52 + e) by (unfold e; lia).
    assert (Hpos : 0 < m) by lia.
    destruct (N.log2_spec m Hpos) as [Hlo Hhi].
    rewrite He in Hlo, Hhi.
    rewrite N.pow_succ_r', N.pow_add_r in Hhi.
    rewrite N.pow_add_r in Hlo.
    assert (Hp : 2 ^ e <> 0) by (apply N.pow_nonzero; lia).
    assert (Hq : 2 ^ 52 <= q < 2 ^ 53).
    { unfold q. split.
      - apply N.div_le_lower_bound; [exact Hp | lia].
      - apply N.Div0.div_lt_upper_bound.
        change (2 ^ 53) with (2 * 2 ^ 52). lia. }
    apply round53_multiple; [unfold e; lia | | exact Hov].
    unfold q'. destruct (_ || _); lia.
Qed.

(** [Number] of a digit string is [Infinity] or a double. *)
Lemma Number_double (s : string) :
  match Number s with
  | Fin v => is_double v = true
  | Infinity => True
  end.
Proof.
  unfold Number, is_double.
  destruct (round53 (digits_value s)) as [v|] eqn:H; [|exact I].
  rewrite (round53_idempotent _ _ H). cbn. apply N.eqb_refl.
Qed.

End Rounding.

(** ** [toString] on plain numbers *)

Section ToString.

Lemma number_eqb_eq (a b : number) : number_eqb a b = true <-> a = b.
Proof.
  destruct a as [x|], b as [y|]; simpl; split; intros H;
    try discriminate; try reflexivity.
  - apply N.eqb_eq in H. congruence.
  - injection H as ->. apply N.eqb_refl.
Qed.

Lemma number_eqb_refl (a : number) : number_eqb a a = true.
Proof. apply number_eqb_eq. reflexivity. Qed.

(** A candidate is one of the two multiples around [x], and converts back
    to [x]. *)
Lemma candidate_spec (x p v : N) :
  candidate x p = Some v ->
  round53 v = Fin x /\ (v = x / p * p \/ v = x / p * p + p).
Proof.
  unfold candidate.
  destruct (number_eqb (round53 (x / p * p)) (Fin x)) eqn:Hlo;
    destruct (number_eqb (round53 (x / p * p + p)) (Fin x)) eqn:Hhi;
    try discriminate;
    try apply number_eqb_eq in Hlo; try apply number_eqb_eq in Hhi.
  - destruct (x - x / p * p <? x / p * p + p - x).
    + intros [= <-]. auto.
    + destruct (x / p * p + p - x <? x - x / p * p).
      * intros [= <-]. auto.
      * destruct (N.even (x / p)); intros [= <-]; auto.
  - intros [= <-]. auto.
  - intros [= <-]. auto.
Qed.

Lemma shortest_round (x : N) (j : nat) :
  is_double x = true -> round53 (shortest x j) = Fin x.
Proof.
  intros Hx. apply number_eqb_eq in Hx.
  induction j as [|j IH]; cbn [shortest];
    destruct (candidate x (10 ^ N.of_nat _)) as [v|] eqn:Hc;
    try (apply candidate_spec in Hc; tauto); assumption.
Qed.

Lemma multiple_above_le (x p k : N) :
  p <> 0 -> x < k * p -> x / p * p + p <= k * p.
Proof.
  intros Hp Hx.
  assert (x / p < k).
  { apply N.Div0.div_lt_upper_bound. lia. }
  nia.
Qed.

Lemma shortest_below (x : N) (j : nat) :
  is_double x = true -> x < 10 ^ 21 -> (j <= 21)%nat ->
  shortest x j < 10 ^ 21.
Proof.
  intros Hx Hlt. induction j as [|j IH]; intros Hj; cbn [shortest].
  - destruct (candidate x (10 ^ N.of_nat 0)) as [v|] eqn:Hc; [|exact Hlt].
    apply candidate_spec in Hc as [Hr [-> | ->]].
    + change (10 ^ N.of_nat 0) with 1. rewrite N.div_1_r. lia.
    + change (10 ^ N.of_nat 0) with 1 in *. rewrite N.div_1_r in *.
      assert (x + 1 <> 10 ^ 21).
      { intros E. replace (x * 1 + 1) with (10 ^ 21) in Hr by lia.
        vm_compute in Hr. injection Hr as Hr. lia. }
      lia.
  - destruct (candidate x (10 ^ N.of_nat (S j))) as [v|] eqn:Hc;
      [|apply IH; lia].
    set (p := 10 ^ N.of_nat (S j)) in *.
    assert (Hp : p <> 0) by (apply N.pow_nonzero; lia).
    apply candidate_spec in Hc as [Hr [-> | ->]].
    + pose proof (N.Div0.mul_div_le x p). lia.
    + assert (Hk : 10 ^ 21 = 10 ^ (21 - N.of_nat (S j)) * p).
      { unfold p. rewrite <- N.pow_add_r. f_equal. lia. }
      assert (Hle : x / p * p + p <= 10 ^ (21 - N.of_nat (S j)) * p).
      { apply multiple_above_le; [exact Hp | rewrite <- Hk; exact Hlt]. }
      rewrite <- Hk in Hle.
      assert (x / p * p + p <> 10 ^ 21).
      { intros E. rewrite E in Hr.
        vm_compute in Hr. injection Hr as Hr. lia. }
      lia.
Qed.

(** Below [10^21] the template literal prints a run of digits that
    [Number] reads back as the same double. *)
Lemma toString_plain (x : number) :
  plain_number x = true ->
  digit_run (toString x) /\ Number (toString x) = x.
Proof.
  destruct x as [n|]; [|discriminate]. cbn [plain_number].
  intros H. apply andb_prop in H as [Hd Hlt]. apply N.ltb_lt in Hlt.
  destruct n as [|q].
  - split; [split; [discriminate | reflexivity] | reflexivity].
  - cbn [toString].
    set (v := shortest (N.pos q) (Nat.pred (num_digits (N.pos q)))).
    assert (Hj : (Nat.pred (num_digits (N.pos q)) <= 21)%nat).
    { pose proof (num_digits_le 21 (N.pos q) Hlt ltac:(lia)). lia. }
    pose proof (shortest_below _ _ Hd Hlt Hj) as Hv. fold v in Hv.
    pose proof (shortest_round _ (Nat.pred (num_digits (N.pos q))) Hd) as Hr.
    fold v in Hr.
    pose proof (num_digits_le 21 v Hv ltac:(lia)) as Hn.
    apply Nat.leb_le in Hn. rewrite Hn.
    destruct (decimal_spec v) as (Hne & Hall & Hval).
    split; [split; assumption|].
    unfold Number. rewrite Hval. exact Hr.
Qed.

End ToString.

(** ** The matcher and the language of the pattern *)

Section Regex.

Lemma span_digits_spec (s : string) :
  forall d r, span_digits s = (d, r) ->
              s = d ++ r /\ all_digits d = true /\ stops r.
Proof.
  induction s as [|c s IH]; intros d r; cbn [span_digits].
  - intros [= <- <-]. repeat split.
  - destruct (is_digit c) eqn:Hc.
    + destruct (span_digits s) as [d' r'] eqn:Hs.
      intros [= <- <-]. destruct (IH d' r' eq_refl) as (-> & Hall & Hstop).
      cbn [append all_digits]. rewrite Hc, Hall. repeat split. exact Hstop.
    + intros [= <- <-]. repeat split. exact Hc.
Qed.

Lemma span_digits_app (d r : string) :
  all_digits d = true -> stops r -> span_digits (d ++ r) = (d, r).
Proof.
  intros Hall Hstop. induction d as [|c d IH]; cbn [append].
  - destruct r as [|c r]; cbn [span_digits]; [reflexivity|].
    cbn [stops] in Hstop. rewrite Hstop. reflexivity.
  - cbn [all_digits] in Hall. apply andb_prop in Hall as [Hc Hall].
    cbn [span_digits]. rewrite Hc, (IH Hall). reflexivity.
Qed.

Lemma digits1_spec (s d r : string) :
  digits1 s = Some (d, r) -> s = d ++ r /\ digit_run d /\ stops r.
Proof.
  unfold digits1. destruct (span_digits s) as [d' r'] eqn:Hs.
  destruct d' as [|c d']; [discriminate|].
  intros [= <- <-]. apply span_digits_spec in Hs as (-> & Hall & Hstop).
  repeat split; [discriminate | exact Hall | exact Hstop].
Qed.

Lemma digits1_app (d r : string) :
  digit_run d -> stops r -> digits1 (d ++ r) = Some (d, r).
Proof.
  intros [Hne Hall] Hstop. unfold digits1.
  rewrite (span_digits_app d r Hall Hstop).
  destruct d; [congruence | reflexivity].
Qed.

Lemma lit_spec (c : ascii) (s r : string) :
  lit c s = Some r <-> s = String c r.
Proof.
  unfold lit. destruct s as [|c' s].
  - split; discriminate.
  - destruct (Ascii.eqb_spec c c') as [<- | Hne]; split; intros H;
      congruence.
Qed.

Lemma stops_dot (r : string) : stops (String "." r).
Proof. reflexivity. Qed.

(** The matcher accepts exactly the language of the pattern, and the
    capture groups are the three runs. *)
Lemma regex_match_iff (s : string) (g : Groups) :
  regex_match s = Some g <-> in_pattern s g.
Proof.
  split.
  - unfold regex_match.
    destruct (lit "v" s) as [r0|] eqn:H0; [|discriminate].
    destruct (digits1 r0) as [[a r1]|] eqn:H1; [|discriminate].
    destruct (lit "." r1) as [r2|] eqn:H2; [|discriminate].
    destruct (digits1 r2) as [[b r3]|] eqn:H3; [|discriminate].
    destruct (lit "." r3) as [r4|] eqn:H4; [|discriminate].
    destruct (digits1 r4) as [[c [|x r5]]|] eqn:H5; try discriminate.
    intros [= <-].
    apply lit_spec in H0, H2, H4.
    apply digits1_spec in H1 as (E1 & D1 & _).
    apply digits1_spec in H3 as (E3 & D3 & _).
    apply digits1_spec in H5 as (E5 & D5 & _).
    rewrite append_nil_r in E5. subst.
    repeat split; try apply D1; try apply D3; try apply D5.
  - intros (-> & Da & Db & Dc). destruct g as [a b c].
    cbn [g_major g_minor g_revision] in *.
    unfold regex_match. cbn [append lit].
    rewrite Ascii.eqb_refl.
    rewrite (digits1_app a _ Da (stops_dot _)). cbn [lit].
    rewrite Ascii.eqb_refl.
    rewrite (digits1_app b _ Db (stops_dot _)). cbn [lit].
    rewrite Ascii.eqb_refl.
    rewrite <- (append_nil_r c) at 1.
    rewrite (digits1_app c "" Dc I). reflexivity.
Qed.

Lemma regex_match_none (s : string) :
  ~ well_formed_tag s -> regex_match s = None.
Proof.
  intros H. destruct (regex_match s) as [g|] eqn:Hm; [|reflexivity].
  exfalso. apply H. exists g. apply regex_match_iff. exact Hm.
Qed.

End Regex.

(** ** Parsing and printing versions *)

Section ParsePrint.

Lemma parse_well_formed (g : Groups) :
  digit_run (g_major g) -> digit_run (g_minor g) ->
  digit_run (g_revision g) ->
  parseVersionString
    ("v" ++ g_major g ++ "." ++ g_minor g ++ "." ++ g_revision g)
  = mkVersion (Number (g_major g)) (Number (g_minor g))
              (Number (g_revision g)).
Proof.
  intros Ha Hb Hc. unfold parseVersionString.
  assert (H : regex_match
                ("v" ++ g_major g ++ "." ++ g_minor g ++ "."
                     ++ g_revision g) = Some g).
  { apply regex_match_iff. repeat split; try apply Ha; try apply Hb;
      apply Hc. }
  rewrite H. reflexivity.
Qed.

End ParsePrint.

(** C2, as amended: for every version triple whose three fields are
    non-negative integer numbers below 10^21, parsing the text that the
    template literal [v${major}.${minor}.${revision}] renders gives the
    triple back. *)
Theorem parse_version_text (v : Version) :
  plain_version v = true -> parseVersionString (version_text v) = v.
Proof.
  destruct v as [a b c]. unfold plain_version.
  cbn [major minor revision]. intros H.
  apply andb_prop in H as [H Hc]. apply andb_prop in H as [Ha Hb].
  apply toString_plain in Ha as [Da Na], Hb as [Db Nb], Hc as [Dc Nc].
  unfold version_text. cbn [major minor revision].
  pose proof (parse_well_formed (mkGroups (toString a) (toString b)
                                          (toString c)) Da Db Dc) as E.
  cbn [g_major g_minor g_revision] in E.
  rewrite Na, Nb, Nc in E. exact E.
Qed.

Lemma parse_version_text_witness :
  plain_version (version_of 12 1 0) = true
  /\ parseVersionString (version_text (version_of 12 1 0))
     = version_of 12 1 0.
Proof.
  split; [reflexivity | apply (parse_version_text (version_of 12 1 0))].
  reflexivity.
Defined.

(** C2 as stated fails from 10^21 on: the triple (10^21, 0, 0), which
    [parseVersionString] returns for the tag [v1000000000000000000000.0.0],
    is rendered as [v1e+21.0.0] and parsed back as (0, 0, 0). *)
Lemma parse_version_text_exponent :
  integer_version (version_of (10 ^ 21) 0 0) = true
  /\ parseVersionString "v1000000000000000000000.0.0"
     = version_of (10 ^ 21) 0 0
  /\ version_text (version_of (10 ^ 21) 0 0) = "v1e+21.0.0"
  /\ parseVersionString (version_text (version_of (10 ^ 21) 0 0))
     <> version_of (10 ^ 21) 0 0.
Proof.
  repeat split; try (vm_compute; reflexivity).
  vm_compute. discriminate.
Qed.

(** C3: every string outside the language of the anchored pattern
    [v<digits>.<digits>.<digits>] is parsed to the sentinel (0, 0, 0);
    [parseVersionString] is a total function on strings. *)
Theorem parse_malformed (s : string) :
  ~ well_formed_tag s -> parseVersionString s = sentinel.
Proof.
  intros H. unfold parseVersionString.
  rewrite (regex_match_none s H). reflexivity.
Qed.

Lemma parse_malformed_witness :
  ~ well_formed_tag "v1.2.3 " /\ parseVersionString "v1.2.3 " = sentinel.
Proof.
  assert (H : ~ well_formed_tag "v1.2.3 ").
  { intros [g Hg]. apply regex_match_iff in Hg. discriminate Hg. }
  split; [exact H | exact (parse_malformed "v1.2.3 " H)].
Defined.

(** The kinds of malformed input that the specification lists. *)
Example parse_malformed_kinds :
  parseVersionString "" = sentinel
  /\ parseVersionString "v1.2" = sentinel
  /\ parseVersionString "v1.x.3" = sentinel
  /\ parseVersionString "1.2.3" = sentinel
  /\ parseVersionString "V1.2.3" = sentinel
  /\ parseVersionString " v1.2.3" = sentinel
  /\ parseVersionString "v1.2.3-rc1" = sentinel
  /\ parseVersionString "v1..3" = sentinel
  /\ parseVersionString "v1.2.3.4" = sentinel.
Proof. repeat split. Qed.

(** ** The update predicate *)

Section Ordering.

Lemma number_compare_cases (a b : number) :
  match number_compare b a with
  | Gt => number_ltb a b = true /\ number_eqb a b = false
  | Eq => number_ltb a b = false /\ number_eqb a b = true
  | Lt => number_ltb a b = false /\ number_eqb a b = false
  end.
Proof.
  destruct a as [x|], b as [y|]; cbn; auto.
  destruct (N.compare_spec y x) as [E | L | G].
  - subst. rewrite N.ltb_irrefl, N.eqb_refl. auto.
  - split; [apply N.ltb_ge | apply N.eqb_neq]; lia.
  - split; [apply N.ltb_lt | apply N.eqb_neq]; lia.
Qed.

Lemma updateAvailable_isNewer (old new : Version) :
  updateAvailable old new = true <-> isNewer old new.
Proof.
  destruct old as [a b c], new as [a' b' c'].
  unfold updateAvailable, isNewer, version_compare.
  cbn [major minor revision].
  pose proof (number_compare_cases a a') as Ha.
  pose proof (number_compare_cases b b') as Hb.
  pose proof (number_compare_cases c c') as Hc.
  destruct (number_compare a' a), (number_compare b' b),
    (number_compare c' c);
    destruct Ha as [-> ->], Hb as [-> ->], Hc as [-> _];
    cbn; split; congruence.
Qed.

End Ordering.

(** C4: the update-available expression of the check cycle is true exactly
    when the new triple is greater than the old one in the lexicographic
    order on (major, minor, revision); it is true for old (1,2,3) and new
    (1,2,4), false for old and new (1,2,3), false for old (2,0,0) and new
    (1,9,9). *)
Theorem updateAvailable_lexicographic :
  (forall old new : Version,
      updateAvailable old new = true <-> version_compare new old = Gt)
  /\ updateAvailable (version_of 1 2 3) (version_of 1 2 4) = true
  /\ updateAvailable (version_of 1 2 3) (version_of 1 2 3) = false
  /\ updateAvailable (version_of 2 0 0) (version_of 1 9 9) = false.
Proof.
  split; [exact updateAvailable_isNewer | repeat split].
Qed.

(** ** One check cycle *)

Section Cycle.

Variable env : Env.
Variable w : World.

Lemma getLatest_rejected (e : Exn) :
  makeHttpsRequest env = Rejected e ->
  getLatestTasmotaVersion env w
  = (Returns None, w,
     [AppLog ("makeHttpsRequest error: " ++ exn_text e);
      AppError "Error while checking tasmota releases, staus: undefined"]).
Proof.
  intros H. unfold getLatestTasmotaVersion, bind, try_catch. rewrite H.
  reflexivity.
Qed.

Lemma getLatest_status (r : FetchResult) :
  makeHttpsRequest env = Resolved r -> statusCode r <> 200 ->
  getLatestTasmotaVersion env w
  = (Returns None, w,
     [AppError ("Error while checking tasmota releases, staus: "
                  ++ decimal (statusCode r))]).
Proof.
  intros H Hs. apply N.eqb_neq in Hs.
  unfold getLatestTasmotaVersion, bind, try_catch. rewrite H.
  cbn [await ret]. rewrite Hs. reflexivity.
Qed.

Lemma getLatest_tag (r : FetchResult) (ms : list (string * JSValue))
      (s : string) :
  makeHttpsRequest env = Resolved r -> statusCode r = 200 ->
  body r = JSON (JObject ms) -> member "tag_name" ms = Some (JString s) ->
  getLatestTasmotaVersion env w
  = (Returns (Some (parseVersionString s)), w,
     [AppLog ("Latest Tasmota Version on Github: "
                ++ version_text (parseVersionString s))]).
Proof.
  intros H Hs Hb Ht. apply N.eqb_eq in Hs.
  unfold getLatestTasmotaVersion, bind, try_catch. rewrite H.
  cbn [await ret]. rewrite Hs, Hb.
  cbn [JSON_parse ret get_tag_name]. rewrite Ht. reflexivity.
Qed.

(** Fetching touches neither the file nor the field, and only logs. *)
Lemma getLatest_frame :
  snd (fst (getLatestTasmotaVersion env w)) = w
  /\ triggers (snd (getLatestTasmotaVersion env w)) = []
  /\ writes (snd (getLatestTasmotaVersion env w)) = [].
Proof.
  unfold getLatestTasmotaVersion, bind, try_catch.
  destruct (makeHttpsRequest env) as [r|e|]; cbn [await ret throw].
  - destruct (statusCode r =? 200); [|repeat split].
    destruct (body r) as [|info]; cbn [JSON_parse ret throw];
      [repeat split|].
    destruct info as [| b | l | s | items | ms];
      cbn [get_tag_name ret throw call_parseVersionString];
      try (repeat split; fail).
    destruct (member "tag_name" ms) as [[| b | l | s | items | ms']|];
      repeat split.
  - repeat split.
  - repeat split.
Qed.

(** A request whose promise is never settled suspends the fetch at its
    [await], before anything is logged. *)
Lemma getLatest_pending :
  makeHttpsRequest env = Pending ->
  getLatestTasmotaVersion env w = (Suspended, w, []).
Proof.
  intros H. unfold getLatestTasmotaVersion, bind, try_catch. rewrite H.
  reflexivity.
Qed.

Lemma check_skipped (ev : list Event) :
  getLatestTasmotaVersion env w = (Returns None, w, ev) ->
  checkTasmotaReleases env w = (Returns tt, w, checking :: ev).
Proof.
  intros H. unfold checkTasmotaReleases, bind. cbn [app_log emit].
  rewrite H. cbn [ret app]. rewrite app_nil_r. reflexivity.
Qed.

Lemma check_thrown (e : Exn) (ev : list Event) :
  getLatestTasmotaVersion env w = (Throws e, w, ev) ->
  checkTasmotaReleases env w = (Throws e, w, checking :: ev).
Proof.
  intros H. unfold checkTasmotaReleases, bind. cbn [app_log emit].
  rewrite H. reflexivity.
Qed.

Lemma check_suspended (ev : list Event) :
  getLatestTasmotaVersion env w = (Suspended, w, ev) ->
  checkTasmotaReleases env w = (Suspended, w, checking :: ev).
Proof.
  intros H. unfold checkTasmotaReleases, bind. cbn [app_log emit].
  rewrite H. reflexivity.
Qed.

Lemma check_not_newer (nv last : Version) (ev : list Event) :
  getLatestTasmotaVersion env w = (Returns (Some nv), w, ev) ->
  lastTasmotaVersion w = Some last -> updateAvailable last nv = false ->
  checkTasmotaReleases env w = (Returns tt, w, checking :: ev).
Proof.
  intros H Hl Hu. unfold checkTasmotaReleases, bind. cbn [app_log emit].
  rewrite H. cbn [get_lastTasmotaVersion]. rewrite Hl, Hu.
  cbn [ret app]. rewrite !app_nil_r. reflexivity.
Qed.

Lemma check_trigger_rejected (nv last : Version) (ev : list Event)
      (e : Exn) :
  getLatestTasmotaVersion env w = (Returns (Some nv), w, ev) ->
  lastTasmotaVersion w = Some last -> updateAvailable last nv = true ->
  trigger env = Rejected e ->
  checkTasmotaReleases env w
  = (Throws e, w,
     checking :: ev ++ [CardTrigger (tokens_of nv last)]).
Proof.
  intros H Hl Hu Ht. unfold checkTasmotaReleases, bind. cbn [app_log emit].
  rewrite H. cbn [get_lastTasmotaVersion]. rewrite Hl, Hu, Ht.
  cbn [await throw app]. reflexivity.
Qed.

Lemma check_trigger_pending (nv last : Version) (ev : list Event) :
  getLatestTasmotaVersion env w = (Returns (Some nv), w, ev) ->
  lastTasmotaVersion w = Some last -> updateAvailable last nv = true ->
  trigger env = Pending ->
  checkTasmotaReleases env w
  = (Suspended, w,
     checking :: ev ++ [CardTrigger (tokens_of nv last)]).
Proof.
  intros H Hl Hu Ht. unfold checkTasmotaReleases, bind. cbn [app_log emit].
  rewrite H. cbn [get_lastTasmotaVersion]. rewrite Hl, Hu, Ht.
  cbn [await app]. reflexivity.
Qed.

Lemma check_newer (nv last : Version) (ev : list Event) (u : unit) :
  getLatestTasmotaVersion env w = (Returns (Some nv), w, ev) ->
  lastTasmotaVersion w = Some last -> updateAvailable last nv = true ->
  trigger env = Resolved u ->
  checkTasmotaReleases env w
  = (Returns tt,
     mkWorld (match writeFileSync env with
              | WriteOk => Some (version_text nv)
              | WriteFails _ residue => residue
              end) (Some nv),
     checking :: ev
       ++ [CardTrigger (tokens_of nv last);
           AppLog ("New Tasmota version available " ++ version_dotted nv
                     ++ " (old " ++ version_dotted last ++ ")");
           WriteFileSync (version_text nv)]
       ++ match writeFileSync env with
          | WriteOk => []
          | WriteFails e _ =>
              [AppLog ("Error writing tasmota version file: "
                         ++ exn_text e)]
          end).
Proof.
  intros H Hl Hu Ht. unfold checkTasmotaReleases, bind. cbn [app_log emit].
  rewrite H. cbn [get_lastTasmotaVersion]. rewrite Hl, Hu, Ht.
  cbn [await ret]. unfold saveTasmotaVersion, try_catch, fs_writeFileSync.
  destruct (writeFileSync env) as [|e residue];
    cbn [set_lastTasmotaVersion app_log emit file lastTasmotaVersion app];
    rewrite ?app_nil_r; reflexivity.
Qed.

(** The branch for a [null] field: the fetched version is logged and
    saved, and the trigger card is not called. *)
Lemma check_first (nv : Version) (ev : list Event) :
  getLatestTasmotaVersion env w = (Returns (Some nv), w, ev) ->
  lastTasmotaVersion w = None ->
  lastTasmotaVersion (tick env w) = Some nv
  /\ triggers (tick_events env w) = triggers ev.
Proof.
  intros H Hl. unfold tick, tick_events, checkTasmotaReleases, bind.
  cbn [app_log emit].
  rewrite H. cbn [get_lastTasmotaVersion]. rewrite Hl.
  cbn [await ret]. unfold saveTasmotaVersion, try_catch, fs_writeFileSync.
  destruct (writeFileSync env) as [|e residue];
    cbn [set_lastTasmotaVersion app_log emit fst snd lastTasmotaVersion];
    (split; [reflexivity|]); unfold triggers;
    rewrite ?app_nil_r; cbn [app filter is_trigger];
    rewrite filter_app; cbn [filter is_trigger]; apply app_nil_r.
Qed.

End Cycle.

(** ** The constructor and the sequence of cycles *)

Section Process.

Lemma start_spec (f : option string) :
  file (start f) = f
  /\ lastTasmotaVersion (start f)
     = Some (match f with
             | None => sentinel
             | Some text => parseVersionString text
             end).
Proof. destruct f; split; reflexivity. Qed.

(** A cycle leaves the field alone or stores a version for which the
    update expression was true; a field that is [null] would take any
    fetched version. *)
Lemma tick_last (env : Env) (w : World) (old : Version) :
  lastTasmotaVersion w = Some old ->
  lastTasmotaVersion (tick env w) = Some old
  \/ exists nv, lastTasmotaVersion (tick env w) = Some nv
                /\ updateAvailable old nv = true.
Proof.
  intros Hl.
  destruct (getLatest_frame env w) as (Hw & _ & _).
  destruct (getLatestTasmotaVersion env w) as [[res w1] ev] eqn:Hg.
  cbn [fst snd] in Hw. subst w1. unfold tick.
  destruct res as [[nv|]|e|].
  - destruct (updateAvailable old nv) eqn:Hu.
    + destruct (trigger env) as [u|e|] eqn:Ht.
      * right. exists nv.
        rewrite (check_newer env w nv old ev u Hg Hl Hu Ht). auto.
      * left. rewrite (check_trigger_rejected env w nv old ev e Hg Hl Hu Ht).
        exact Hl.
      * left. rewrite (check_trigger_pending env w nv old ev Hg Hl Hu Ht).
        exact Hl.
    + left. rewrite (check_not_newer env w nv old ev Hg Hl Hu). exact Hl.
  - left. rewrite (check_skipped env w ev Hg). exact Hl.
  - left. rewrite (check_thrown env w e ev Hg). exact Hl.
  - left. rewrite (check_suspended env w ev Hg). exact Hl.
Qed.

Lemma number_compare_eq (a b : number) :
  number_compare a b = Eq -> a = b.
Proof.
  destruct a as [x|], b as [y|]; cbn; try discriminate; auto.
  intros H. apply N.compare_eq_iff in H. congruence.
Qed.

Lemma number_compare_gt_trans (a b c : number) :
  number_compare a b = Gt -> number_compare b c = Gt ->
  number_compare a c = Gt.
Proof.
  destruct a as [x|], b as [y|], c as [z|]; cbn; try discriminate; auto.
  rewrite !N.compare_gt_iff. lia.
Qed.

Lemma version_compare_eq (a b : Version) :
  version_compare a b = Eq -> a = b.
Proof.
  destruct a as [a1 a2 a3], b as [b1 b2 b3]. unfold version_compare.
  cbn [major minor revision].
  destruct (number_compare a1 b1) eqn:E1; try discriminate.
  destruct (number_compare a2 b2) eqn:E2; try discriminate.
  intros E3.
  apply number_compare_eq in E1, E2, E3. congruence.
Qed.

Lemma number_compare_refl (a : number) : number_compare a a = Eq.
Proof. destruct a; cbn; [apply N.compare_refl | reflexivity]. Qed.

(** Composition of two field comparisons that are each [Eq] or [Gt]. *)
Lemma number_compare_chain (a b c : number) :
  number_compare a b <> Lt -> number_compare b c <> Lt ->
  number_compare a c
  = match number_compare a b with
    | Eq => number_compare b c
    | other => other
    end.
Proof.
  intros Hab Hbc.
  destruct (number_compare a b) eqn:A; [| congruence |].
  - apply number_compare_eq in A. congruence.
  - destruct (number_compare b c) eqn:B; [| congruence |].
    + apply number_compare_eq in B. congruence.
    + exact (number_compare_gt_trans _ _ _ A B).
Qed.

Lemma version_compare_gt_trans (a b c : Version) :
  version_compare a b = Gt -> version_compare b c = Gt ->
  version_compare a c = Gt.
Proof.
  destruct a as [a1 a2 a3], b as [b1 b2 b3], c as [c1 c2 c3].
  unfold version_compare. cbn [major minor revision].
  intros Hab Hbc.
  destruct (number_compare a1 b1) eqn:A1; try discriminate;
    destruct (number_compare b1 c1) eqn:B1; try discriminate;
    rewrite (number_compare_chain a1 b1 c1) by congruence;
    rewrite A1, ?B1; try reflexivity.
  destruct (number_compare a2 b2) eqn:A2; try discriminate;
    destruct (number_compare b2 c2) eqn:B2; try discriminate;
    rewrite (number_compare_chain a2 b2 c2) by congruence;
    rewrite A2, ?B2; try reflexivity.
  exact (number_compare_gt_trans _ _ _ Hab Hbc).
Qed.

Lemma version_compare_refl (a : Version) : version_compare a a = Eq.
Proof.
  destruct a as [x y z]. unfold version_compare.
  cbn [major minor revision]. rewrite !number_compare_refl. reflexivity.
Qed.

(** Over any number of cycles the field holds a version that is equal to
    or greater than the one it started from. *)
Lemma run_last (envs : list Env) :
  forall (w : World) (old : Version),
    lastTasmotaVersion w = Some old ->
    exists v, lastTasmotaVersion (run envs w) = Some v
              /\ (v = old \/ version_compare v old = Gt).
Proof.
  induction envs as [|env rest IH]; intros w old Hl; cbn [run].
  - exists old. auto.
  - destruct (tick_last env w old Hl) as [Hs | (nv & Hn & Hu)].
    + exact (IH _ _ Hs).
    + destruct (IH _ _ Hn) as (v & Hv & Hc). exists v. split; [exact Hv|].
      apply updateAvailable_isNewer in Hu. unfold isNewer in Hu.
      right. destruct Hc as [-> | Hc]; [exact Hu|].
      exact (version_compare_gt_trans _ _ _ Hc Hu).
Qed.

End Process.

(** ** The claims about the check cycle *)

(** C1: on the code, a process that finds no version file loads the
    sentinel (0, 0, 0), and its first successful fetch (here of v12.1.0)
    does call the trigger card, with the old version 0.0.0, before it
    records the fetched version: the branch for a [null] field, which would
    record the baseline without a notification, is never taken because the
    field holds the sentinel. *)
Theorem first_fetch_without_file :
  loadTasmotaVersionFromFile (mkWorld None None)
  = (Returns sentinel, mkWorld None None,
     [AppLog "loadTasmotaVersion: No version file exists!"])
  /\ lastTasmotaVersion (start None) = Some sentinel
  /\ checkTasmotaReleases (online (JString "v12.1.0")) (start None)
     = (Returns tt,
        mkWorld (Some "v12.1.0") (Some (version_of 12 1 0)),
        [checking;
         AppLog "Latest Tasmota Version on Github: v12.1.0";
         CardTrigger (mkTokens (Fin 12) (Fin 1) (Fin 0)
                               (Fin 0) (Fin 0) (Fin 0));
         AppLog "New Tasmota version available 12.1.0 (old 0.0.0)";
         WriteFileSync "v12.1.0"]).
Proof. repeat split. Qed.

(** The failures that settle the promise of the request: when it is
    rejected (an error of the request: no connection, a timeout before the
    response) or resolved with a status other than 200,
    [getLatestTasmotaVersion] returns [null] and the cycle ends normally
    with the file and the field as they were, having called neither the
    trigger card nor [fs.writeFileSync]. *)
Theorem failed_fetch_skips_cycle (env : Env) (w : World) :
  (exists e, makeHttpsRequest env = Rejected e)
  \/ (exists r, makeHttpsRequest env = Resolved r /\ statusCode r <> 200) ->
  exists ev,
    getLatestTasmotaVersion env w = (Returns None, w, ev)
    /\ checkTasmotaReleases env w = (Returns tt, w, checking :: ev)
    /\ triggers (checking :: ev) = []
    /\ writes (checking :: ev) = [].
Proof.
  intros [[e He] | [r [Hr Hs]]].
  - eexists. split; [exact (getLatest_rejected env w e He)|].
    split; [apply check_skipped; exact (getLatest_rejected env w e He)|].
    split; reflexivity.
  - eexists. split; [exact (getLatest_status env w r Hr Hs)|].
    split; [apply check_skipped; exact (getLatest_status env w r Hr Hs)|].
    split; reflexivity.
Qed.

Lemma failed_fetch_skips_cycle_witness :
  exists ev,
    getLatestTasmotaVersion offline (start (Some "v1.0.0"))
    = (Returns None, start (Some "v1.0.0"), ev)
    /\ checkTasmotaReleases offline (start (Some "v1.0.0"))
       = (Returns tt, start (Some "v1.0.0"), checking :: ev)
    /\ triggers (checking :: ev) = []
    /\ writes (checking :: ev) = [].
Proof.
  apply (failed_fetch_skips_cycle offline (start (Some "v1.0.0"))).
  left. eexists. reflexivity.
Defined.

(** C5: on the code, a transport failure after the response has begun
    does not end in [null]: when the response stalls and the timeout
    destroys the request, no listener settles the promise of
    [makeHttpsRequest], so [getLatestTasmotaVersion] stays suspended at its
    [await] without logging anything and never returns, and the cycle stays
    suspended after its first log line.  (It still calls neither the
    trigger card nor [fs.writeFileSync] and leaves the file and the field
    as they were.) *)
Theorem stalled_response_suspends_cycle (parse : string -> Body) :
  Https.makeHttpsRequest stalled_response = None
  /\ getLatestTasmotaVersion (stalled parse) (start (Some "v1.0.0"))
     = (Suspended, start (Some "v1.0.0"), [])
  /\ fst (fst (getLatestTasmotaVersion (stalled parse)
                                       (start (Some "v1.0.0"))))
     <> Returns None
  /\ checkTasmotaReleases (stalled parse) (start (Some "v1.0.0"))
     = (Suspended, start (Some "v1.0.0"), [checking]).
Proof.
  split; [reflexivity|]. split; [reflexivity|].
  split; [discriminate | reflexivity].
Qed.



(** C7: when the fetch succeeds with a version that is equal to or less
    than the version held in memory, the cycle calls neither the trigger
    card nor [fs.writeFileSync] and leaves the file and the field as they
    were. *)
Theorem not_newer_no_effect (env : Env) (w : World) (nv last : Version) :
  fst (fst (getLatestTasmotaVersion env w)) = Returns (Some nv) ->
  lastTasmotaVersion w = Some last ->
  version_compare nv last <> Gt ->
  fst (fst (checkTasmotaReleases env w)) = Returns tt
  /\ tick env w = w
  /\ triggers (tick_events env w) = []
  /\ writes (tick_events env w) = [].
Proof.
  intros Hres Hl Hc.
  destruct (getLatest_frame env w) as (Hw & Htr & Hwr).
  destruct (getLatestTasmotaVersion env w) as [[res w1] ev] eqn:Hg.
  cbn [fst snd] in *. subst w1 res.
  assert (Hu : updateAvailable last nv = false).
  { destruct (updateAvailable last nv) eqn:Hu; [|reflexivity].
    apply updateAvailable_isNewer in Hu. contradiction. }
  unfold tick, tick_events.
  rewrite (check_not_newer env w nv last ev Hg Hl Hu).
  cbn [fst snd]. repeat split.
  - unfold triggers in *. cbn [filter checking is_trigger]. exact Htr.
  - unfold writes in *. cbn [filter checking is_write]. exact Hwr.
Qed.

Lemma not_newer_no_effect_witness :
  tick (online (JString "v0.9.9")) (start (Some "v1.0.0"))
  = start (Some "v1.0.0")
  /\ tick (online (JString "v1.0.0")) (start (Some "v1.0.0"))
     = start (Some "v1.0.0").
Proof.
  split.
  - apply (not_newer_no_effect (online (JString "v0.9.9"))
             (start (Some "v1.0.0")) (version_of 0 9 9) (version_of 1 0 0));
      [reflexivity | reflexivity | discriminate].
  - apply (not_newer_no_effect (online (JString "v1.0.0"))
             (start (Some "v1.0.0")) (version_of 1 0 0) (version_of 1 0 0));
      [reflexivity | reflexivity | discriminate].
Defined.

(** C8: when [fs.writeFileSync] throws, [saveTasmotaVersion] catches the
    error, logs it and returns normally; a cycle that reaches the save for
    the fetched version [v] then still ends normally and has set the field
    to [v]. *)
Theorem write_failure_contained (env : Env) (w : World) (v : Version)
        (e : Exn) (residue : option string) :
  writeFileSync env = WriteFails e residue ->
  saveTasmotaVersion env v w
  = (Returns tt, mkWorld residue (lastTasmotaVersion w),
     [WriteFileSync (version_text v);
      AppLog ("Error writing tasmota version file: " ++ exn_text e)])
  /\ forall last : Version,
      fst (fst (getLatestTasmotaVersion env w)) = Returns (Some v) ->
      lastTasmotaVersion w = Some last ->
      updateAvailable last v = true ->
      trigger env = Resolved tt ->
      fst (fst (checkTasmotaReleases env w)) = Returns tt
      /\ lastTasmotaVersion (tick env w) = Some v
      /\ In (AppLog ("Error writing tasmota version file: " ++ exn_text e))
            (tick_events env w).
Proof.
  intros Hw. split.
  - unfold saveTasmotaVersion, try_catch, fs_writeFileSync. rewrite Hw.
    reflexivity.
  - intros last Hres Hl Hu Ht.
    destruct (getLatest_frame env w) as (Hf & _ & _).
    destruct (getLatestTasmotaVersion env w) as [[res w1] ev] eqn:Hg.
    cbn [fst snd] in *. subst w1 res.
    unfold tick, tick_events.
    rewrite (check_newer env w v last ev tt Hg Hl Hu Ht), Hw.
    cbn [fst snd lastTasmotaVersion]. repeat split.
    right. apply in_or_app. right. apply in_or_app. right. left.
    reflexivity.
Qed.

Lemma write_failure_contained_witness :
  fst (fst (checkTasmotaReleases (read_only (JString "v1.0.1"))
                                 (start (Some "v1.0.0"))))
  = Returns tt
  /\ lastTasmotaVersion (tick (read_only (JString "v1.0.1"))
                              (start (Some "v1.0.0")))
     = Some (version_of 1 0 1).
Proof.
  destruct (write_failure_contained
              (read_only (JString "v1.0.1")) (start (Some "v1.0.0"))
              (version_of 1 0 1) (Error "EACCES: permission denied") None
              eq_refl) as [_ H].
  destruct (H (version_of 1 0 0) eq_refl eq_refl eq_refl eq_refl)
    as (Hres & Hlast & _).
  split; [exact Hres | exact Hlast].
Defined.

(** C9, as amended: when the response has status 200 and its body is an
    object whose [tag_name] is a string outside the pattern
    [v<digits>.<digits>.<digits>], [getLatestTasmotaVersion] returns the
    sentinel (0, 0, 0), not [null], after logging it as the latest
    version. *)
Theorem malformed_tag_gives_sentinel (env : Env) (w : World)
        (r : FetchResult) (ms : list (string * JSValue)) (s : string) :
  makeHttpsRequest env = Resolved r -> statusCode r = 200 ->
  body r = JSON (JObject ms) ->
  member "tag_name" ms = Some (JString s) ->
  ~ well_formed_tag s ->
  getLatestTasmotaVersion env w
  = (Returns (Some sentinel), w,
     [AppLog "Latest Tasmota Version on Github: v0.0.0"]).
Proof.
  intros Hr Hs Hb Ht Hbad.
  rewrite (getLatest_tag env w r ms s Hr Hs Hb Ht).
  rewrite (parse_malformed s Hbad). reflexivity.
Qed.

Lemma malformed_tag_gives_sentinel_witness :
  ~ well_formed_tag "12.1.0"
  /\ getLatestTasmotaVersion (online (JString "12.1.0")) (start None)
     = (Returns (Some sentinel), start None,
        [AppLog "Latest Tasmota Version on Github: v0.0.0"]).
Proof.
  assert (H : ~ well_formed_tag "12.1.0").
  { intros [g Hg]. apply regex_match_iff in Hg. discriminate Hg. }
  split; [exact H|].
  exact (malformed_tag_gives_sentinel
           (online (JString "12.1.0")) (start None)
           (release_response (JString "12.1.0"))
           [("tag_name", JString "12.1.0")] "12.1.0"
           eq_refl eq_refl eq_refl eq_refl H).
Defined.

(** C9 as stated fails when the [tag_name] of a 200 response is not a
    string: for the body [{tag_name: 5}], and for an object without
    [tag_name], the call of [versionString.match] throws a TypeError, so
    [getLatestTasmotaVersion] returns neither the sentinel nor [null]. *)
Lemma non_string_tag_throws :
  getLatestTasmotaVersion (online (JNumber "5")) (start None)
  = (Throws (TypeError "versionString.match is not a function"),
     start None, [])
  /\ fst (fst (getLatestTasmotaVersion (online (JNumber "5")) (start None)))
     <> Returns (Some sentinel)
  /\ fst (fst (getLatestTasmotaVersion
                 (mkEnv (Resolved (mkFetchResult 200 [] (JSON (JObject []))))
                        (Resolved tt) WriteOk)
                 (start None)))
     <> Returns (Some sentinel).
Proof. repeat split; discriminate. Qed.

(** C10: in every process (any stored file, any sequence of cycles) the
    field [lastTasmotaVersion] holds a version; one more cycle leaves it
    unchanged or replaces it with a version that is greater in the
    lexicographic order; and over the whole run it is equal to or greater
    than the version the constructor loaded. *)
Theorem lastTasmotaVersion_monotone (f : option string) (envs : list Env)
        (env : Env) :
  exists first current : Version,
    lastTasmotaVersion (start f) = Some first
    /\ lastTasmotaVersion (run envs (start f)) = Some current
    /\ (current = first \/ version_compare current first = Gt)
    /\ (lastTasmotaVersion (tick env (run envs (start f))) = Some current
        \/ exists next,
            lastTasmotaVersion (tick env (run envs (start f))) = Some next
            /\ version_compare next current = Gt).
Proof.
  destruct (start_spec f) as [_ Hs].
  destruct (run_last envs (start f) _ Hs) as (current & Hc & Hord).
  eexists. exists current. split; [exact Hs|]. split; [exact Hc|].
  split; [exact Hord|].
  destruct (tick_last env _ current Hc) as [Hsame | (nv & Hn & Hu)].
  - left. exact Hsame.
  - right. exists nv. split; [exact Hn|].
    apply updateAvailable_isNewer in Hu. exact Hu.
Qed.

(** * Further properties of the code *)

(** ** The update expression as an order *)

Section StrictOrder.

Lemma number_compare_antisym (a b : number) :
  number_compare b a = CompOpp (number_compare a b).
Proof.
  destruct a as [x|], b as [y|]; cbn; try reflexivity.
  apply N.compare_antisym.
Qed.

Lemma version_compare_antisym (a b : Version) :
  version_compare b a = CompOpp (version_compare a b).
Proof.
  destruct a as [a1 a2 a3], b as [b1 b2 b3]. unfold version_compare.
  cbn [major minor revision].
  rewrite (number_compare_antisym a1 b1), (number_compare_antisym a2 b2),
    (number_compare_antisym a3 b3).
  destruct (number_compare a1 b1), (number_compare a2 b2),
    (number_compare a3 b3); reflexivity.
Qed.

Lemma updateAvailable_irrefl (a : Version) : updateAvailable a a = false.
Proof.
  destruct (updateAvailable a a) eqn:H; [|reflexivity].
  apply updateAvailable_isNewer in H. unfold isNewer in H.
  rewrite version_compare_refl in H. discriminate.
Qed.

Lemma updateAvailable_trans (a b c : Version) :
  updateAvailable a b = true -> updateAvailable b c = true ->
  updateAvailable a c = true.
Proof.
  intros Hab Hbc. apply updateAvailable_isNewer in Hab, Hbc.
  apply updateAvailable_isNewer.
  exact (version_compare_gt_trans _ _ _ Hbc Hab).
Qed.

Lemma updateAvailable_total (a b : Version) :
  updateAvailable a b = true \/ a = b \/ updateAvailable b a = true.
Proof.
  destruct (version_compare a b) eqn:H.
  - right. left. exact (version_compare_eq _ _ H).
  - left. apply updateAvailable_isNewer. unfold isNewer.
    rewrite version_compare_antisym, H. reflexivity.
  - right. right. apply updateAvailable_isNewer. exact H.
Qed.

Lemma sentinel_least (v : Version) : updateAvailable v sentinel = false.
Proof.
  destruct v as [[a|] [b|] [c|]]; unfold updateAvailable, sentinel;
    cbn [major minor revision number_ltb number_eqb];
    rewrite ?N.ltb_ge by lia;
    repeat match goal with
           | |- context [?x <? 0] => replace (x <? 0) with false
               by (symmetry; apply N.ltb_ge; lia)
           end;
    rewrite ?andb_false_r; reflexivity.
Qed.

End StrictOrder.

(** X1: the update expression is a strict order on version triples: no
    version is an update of itself, updates compose, and two versions are
    never updates of each other. *)
Theorem updateAvailable_strict_order :
  (forall a, updateAvailable a a = false)
  /\ (forall a b c,
         updateAvailable a b = true -> updateAvailable b c = true ->
         updateAvailable a c = true)
  /\ (forall a b,
         updateAvailable a b = true -> updateAvailable b a = false).
Proof.
  split; [exact updateAvailable_irrefl|].
  split; [exact updateAvailable_trans|].
  intros a b Hab. destruct (updateAvailable b a) eqn:Hba; [|reflexivity].
  pose proof (updateAvailable_trans a b a Hab Hba) as H.
  rewrite updateAvailable_irrefl in H. discriminate.
Qed.

(** X2: the order is total: of two different versions one is an update of
    the other. *)
Theorem updateAvailable_trichotomy (a b : Version) :
  updateAvailable a b = true \/ a = b \/ updateAvailable b a = true.
Proof. exact (updateAvailable_total a b). Qed.

(** X3: the sentinel (0, 0, 0) is the least version: it is never an update
    of anything, and every other version is an update of it. *)
Theorem sentinel_is_least (v : Version) :
  updateAvailable v sentinel = false
  /\ (updateAvailable sentinel v = true <-> v <> sentinel).
Proof.
  split; [exact (sentinel_least v)|]. split.
  - intros H ->. rewrite updateAvailable_irrefl in H. discriminate.
  - intros Hne.
    destruct (updateAvailable_total sentinel v) as [H | [H | H]];
      [exact H | congruence |].
    rewrite sentinel_least in H. discriminate.
Qed.

(** ** Fields below 2^53 *)

Section SafeIntegers.

Lemma round53_small (m : N) : m < 2 ^ 53 -> round53 m = Fin m.
Proof.
  intros H. unfold round53. apply N.ltb_lt in H. rewrite H. reflexivity.
Qed.

(** From [2^53] on, rounding stays at or above [2^53]. *)
Lemma round53_large (m v : N) :
  2 ^ 53 <= m -> round53 m = Fin v -> 2 ^ 53 <= v.
Proof.
  intros Hm. unfold round53.
  apply N.ltb_ge in Hm as Hb. rewrite Hb.
  set (e := N.log2 m - 52).
  set (q := m / 2 ^ e). set (r := m mod 2 ^ e).
  set (q' := if (2 ^ (e - 1) <? r) || (r =? 2 ^ (e - 1)) && N.odd q
             then q + 1 else q).
  cbv zeta.
  destruct (2 ^ 1024 <=? q' * 2 ^ e); [discriminate|]. intros [= <-].
  assert (Hlog : 53 <= N.log2 m).
  { change 53 with (N.log2 (2 ^ 53)). apply N.log2_le_mono. exact Hm. }
  assert (He : N.log2 m = 52 + e) by (unfold e; lia).
  destruct (N.log2_spec m ltac:(lia)) as [Hlo _].
  rewrite He, N.pow_add_r in Hlo.
  assert (Hp : 2 ^ e <> 0) by (apply N.pow_nonzero; lia).
  assert (Hq : 2 ^ 52 <= q).
  { unfold q. apply N.div_le_lower_bound; [exact Hp | lia]. }
  assert (H2 : 2 <= 2 ^ e).
  { change 2 with (2 ^ 1) at 1. apply N.pow_le_mono_r; unfold e; lia. }
  assert (Hq' : 2 ^ 52 <= q') by (unfold q'; destruct (_ || _); lia).
  change (2 ^ 53) with (2 ^ 52 * 2). nia.
Qed.

Lemma round53_safe (x v : N) : x < 2 ^ 53 -> round53 v = Fin x -> v = x.
Proof.
  intros Hx Hr. destruct (N.lt_ge_cases v (2 ^ 53)) as [Hv | Hv].
  - rewrite (round53_small v Hv) in Hr. congruence.
  - pose proof (round53_large v x Hv Hr). lia.
Qed.

Lemma shortest_safe (x : N) (j : nat) : x < 2 ^ 53 -> shortest x j = x.
Proof.
  intros Hx. induction j as [|j IH]; cbn [shortest];
    destruct (candidate x (10 ^ N.of_nat _)) as [v|] eqn:Hc;
    try (apply candidate_spec in Hc as [Hr _];
         exact (round53_safe x v Hx Hr));
    auto.
Qed.

(** Below [2^53] the template literal prints the decimal digits. *)
Lemma toString_safe (n : N) : n < 2 ^ 53 -> toString (Fin n) = decimal n.
Proof.
  intros Hn. destruct n as [|p]; [reflexivity|].
  cbn [toString]. rewrite (shortest_safe (N.pos p) _ Hn).
  assert (Hd : (num_digits (N.pos p) <= 21)%nat).
  { apply num_digits_le; [|lia].
    apply N.lt_trans with (2 ^ 53); [exact Hn | reflexivity]. }
  apply Nat.leb_le in Hd. rewrite Hd. reflexivity.
Qed.

Lemma Number_safe (d : string) :
  digits_value d < 2 ^ 53 -> Number d = Fin (digits_value d).
Proof. intros H. unfold Number. exact (round53_small _ H). Qed.

Lemma version_text_safe (a b c : N) :
  a < 2 ^ 53 -> b < 2 ^ 53 -> c < 2 ^ 53 ->
  version_text (version_of a b c)
  = "v" ++ decimal a ++ "." ++ decimal b ++ "." ++ decimal c.
Proof.
  intros Ha Hb Hc. unfold version_text, version_of.
  cbn [major minor revision].
  rewrite (toString_safe a Ha), (toString_safe b Hb), (toString_safe c Hc).
  reflexivity.
Qed.

Lemma parse_safe (a b c : string) :
  digit_run a -> digit_run b -> digit_run c ->
  digits_value a < 2 ^ 53 -> digits_value b < 2 ^ 53 ->
  digits_value c < 2 ^ 53 ->
  parseVersionString ("v" ++ a ++ "." ++ b ++ "." ++ c)
  = version_of (digits_value a) (digits_value b) (digits_value c).
Proof.
  intros Da Db Dc Ha Hb Hc.
  pose proof (parse_well_formed (mkGroups a b c) Da Db Dc) as E.
  cbn [g_major g_minor g_revision] in E.
  rewrite (Number_safe a Ha), (Number_safe b Hb), (Number_safe c Hc) in E.
  exact E.
Qed.

(** A leading zero does not change the value of a digit string. *)
Lemma digits_value_zero (d : string) :
  digits_value (String "0" d) = digits_value d.
Proof. reflexivity. Qed.

End SafeIntegers.

(** X4: a tag [v<a>.<b>.<c>] whose three digit runs have values below 2^53
    is parsed to exactly these three values; leading zeros are accepted and
    do not count. *)
Theorem parse_exact_below_2_53 (a b c : string) :
  digit_run a -> digit_run b -> digit_run c ->
  digits_value a < 2 ^ 53 -> digits_value b < 2 ^ 53 ->
  digits_value c < 2 ^ 53 ->
  parseVersionString ("v" ++ a ++ "." ++ b ++ "." ++ c)
  = version_of (digits_value a) (digits_value b) (digits_value c)
  /\ parseVersionString
       ("v" ++ String "0" a ++ "." ++ String "0" b ++ "." ++ String "0" c)
     = version_of (digits_value a) (digits_value b) (digits_value c).
Proof.
  intros Da Db Dc Ha Hb Hc. split; [exact (parse_safe a b c Da Db Dc Ha Hb Hc)|].
  assert (Z : forall d, digit_run d -> digit_run (String "0" d)).
  { intros d [_ Hall]. split; [discriminate|].
    cbn [all_digits]. rewrite Hall. reflexivity. }
  pose proof (parse_safe (String "0" a) (String "0" b) (String "0" c)
                (Z a Da) (Z b Db) (Z c Dc)) as E.
  rewrite !digits_value_zero in E. exact (E Ha Hb Hc).
Qed.

Lemma parse_exact_below_2_53_witness :
  parseVersionString "v12.1.0" = version_of 12 1 0
  /\ parseVersionString "v012.01.00" = version_of 12 1 0.
Proof.
  refine (parse_exact_below_2_53 "12" "1" "0" _ _ _ _ _ _);
    try (split; [discriminate | reflexivity]); reflexivity.
Defined.

(** X5: for fields below 2^53 the text written to the version file and to
    the log is [v], the decimal digits of the three fields, and two dots;
    parsing a tag in that form and printing the result gives the tag
    back. *)
Theorem version_text_exact_below_2_53 (a b c : N) :
  a < 2 ^ 53 -> b < 2 ^ 53 -> c < 2 ^ 53 ->
  version_text (version_of a b c)
  = "v" ++ decimal a ++ "." ++ decimal b ++ "." ++ decimal c
  /\ version_text
       (parseVersionString
          ("v" ++ decimal a ++ "." ++ decimal b ++ "." ++ decimal c))
     = "v" ++ decimal a ++ "." ++ decimal b ++ "." ++ decimal c.
Proof.
  intros Ha Hb Hc. split; [exact (version_text_safe a b c Ha Hb Hc)|].
  destruct (decimal_spec a) as (Na & Aa & Va).
  destruct (decimal_spec b) as (Nb & Ab & Vb).
  destruct (decimal_spec c) as (Nc & Ac & Vc).
  rewrite (parse_safe (decimal a) (decimal b) (decimal c));
    try (split; assumption); rewrite ?Va, ?Vb, ?Vc; try assumption.
  exact (version_text_safe a b c Ha Hb Hc).
Qed.

Lemma version_text_exact_below_2_53_witness :
  version_text (version_of 14 2 0) = "v14.2.0"
  /\ version_text (parseVersionString "v14.2.0") = "v14.2.0".
Proof.
  exact (version_text_exact_below_2_53 14 2 0
           ltac:(reflexivity) ltac:(reflexivity) ltac:(reflexivity)).
Defined.

(** ** What one cycle can do *)

Section CycleCases.

(** The three courses of a cycle that starts with a version in the field:
    nothing happens; the trigger card is called and rejects; the trigger
    card is called, resolves, and the version is saved. *)
Lemma cycle_cases (env : Env) (w : World) (old : Version) :
  lastTasmotaVersion w = Some old ->
  (tick env w = w
   /\ triggers (tick_events env w) = []
   /\ writes (tick_events env w) = []
   /\ (forall nv, fst (fst (getLatestTasmotaVersion env w))
                  = Returns (Some nv) ->
                  updateAvailable old nv = false))
  \/ (exists nv e,
         fst (fst (getLatestTasmotaVersion env w)) = Returns (Some nv)
         /\ updateAvailable old nv = true
         /\ trigger env = Rejected e
         /\ fst (fst (checkTasmotaReleases env w)) = Throws e
         /\ tick env w = w
         /\ triggers (tick_events env w) = [CardTrigger (tokens_of nv old)]
         /\ writes (tick_events env w) = [])
  \/ (exists nv,
         fst (fst (getLatestTasmotaVersion env w)) = Returns (Some nv)
         /\ updateAvailable old nv = true
         /\ trigger env = Pending
         /\ fst (fst (checkTasmotaReleases env w)) = Suspended
         /\ tick env w = w
         /\ triggers (tick_events env w) = [CardTrigger (tokens_of nv old)]
         /\ writes (tick_events env w) = [])
  \/ (exists nv,
         fst (fst (getLatestTasmotaVersion env w)) = Returns (Some nv)
         /\ updateAvailable old nv = true
         /\ fst (fst (checkTasmotaReleases env w)) = Returns tt
         /\ tick env w
            = mkWorld (match writeFileSync env with
                       | WriteOk => Some (version_text nv)
                       | WriteFails _ residue => residue
                       end) (Some nv)
         /\ triggers (tick_events env w) = [CardTrigger (tokens_of nv old)]
         /\ writes (tick_events env w) = [WriteFileSync (version_text nv)]).
Proof.
  intros Hl.
  destruct (getLatest_frame env w) as (Hw & Htr & Hwr).
  destruct (getLatestTasmotaVersion env w) as [[res w1] ev] eqn:Hg.
  cbn [fst snd] in *. subst w1. unfold tick, tick_events.
  assert (Hquiet : forall r : Outcome unit,
             checkTasmotaReleases env w = (r, w, checking :: ev) ->
             snd (fst (checkTasmotaReleases env w)) = w
             /\ triggers (snd (checkTasmotaReleases env w)) = []
             /\ writes (snd (checkTasmotaReleases env w)) = []).
  { intros r ->. cbn [fst snd]. repeat split; assumption. }
  assert (Hone : forall (nv : Version) (evs : list Event),
             triggers
               (checking :: ev ++ CardTrigger (tokens_of nv old) :: evs)
             = CardTrigger (tokens_of nv old) :: triggers evs
             /\ writes
                  (checking :: ev ++ CardTrigger (tokens_of nv old) :: evs)
                = writes evs).
  { intros nv evs. unfold triggers, writes in *.
    cbn [filter checking is_trigger is_write].
    rewrite !filter_app, Htr, Hwr. split; reflexivity. }
  destruct res as [[nv|]|e|].
  - destruct (updateAvailable old nv) eqn:Hu.
    + destruct (trigger env) as [u|e|] eqn:Ht.
      * right. right. right. exists nv.
        rewrite (check_newer env w nv old ev u Hg Hl Hu Ht).
        cbn [fst snd]. split; [reflexivity|]. split; [exact Hu|].
        split; [reflexivity|]. split; [reflexivity|].
        cbn [app]. destruct (Hone nv
          (AppLog ("New Tasmota version available " ++ version_dotted nv
                     ++ " (old " ++ version_dotted old ++ ")")
           :: WriteFileSync (version_text nv)
           :: match writeFileSync env with
              | WriteOk => []
              | WriteFails e _ =>
                  [AppLog ("Error writing tasmota version file: "
                             ++ exn_text e)]
              end)) as [T W].
        rewrite T, W. destruct (writeFileSync env); split; reflexivity.
      * right. left. exists nv, e.
        rewrite (check_trigger_rejected env w nv old ev e Hg Hl Hu Ht).
        cbn [fst snd]. destruct (Hone nv []) as [T W].
        repeat split; assumption.
      * right. right. left. exists nv.
        rewrite (check_trigger_pending env w nv old ev Hg Hl Hu Ht).
        cbn [fst snd]. destruct (Hone nv []) as [T W].
        repeat split; assumption.
    + left. destruct (Hquiet _ (check_not_newer env w nv old ev Hg Hl Hu))
        as (H1 & H2 & H3).
      repeat split; try assumption. intros nv' [= <-]. exact Hu.
  - left. destruct (Hquiet _ (check_skipped env w ev Hg)) as (H1 & H2 & H3).
    repeat split; try assumption. intros nv' [=].
  - left. destruct (Hquiet _ (check_thrown env w e ev Hg)) as (H1 & H2 & H3).
    repeat split; try assumption. intros nv' [=].
  - left. destruct (Hquiet _ (check_suspended env w ev Hg))
      as (H1 & H2 & H3).
    repeat split; try assumption. intros nv' [=].
Qed.

(** The fetch does not look at the state. *)
Lemma getLatest_any_world (env : Env) (w w' : World) :
  fst (fst (getLatestTasmotaVersion env w))
  = fst (fst (getLatestTasmotaVersion env w')).
Proof.
  unfold getLatestTasmotaVersion, bind, try_catch.
  destruct (makeHttpsRequest env) as [r|e|]; cbn [await ret throw];
    [|reflexivity|reflexivity].
  destruct (statusCode r =? 200); [|reflexivity].
  destruct (body r) as [|info]; cbn [JSON_parse ret throw]; [reflexivity|].
  destruct info as [| b | l | s | items | ms];
    cbn [get_tag_name ret throw call_parseVersionString]; try reflexivity.
  destruct (member "tag_name" ms) as [[| b | l | s | items | ms']|];
    reflexivity.
Qed.

End CycleCases.

(** ** Fetching, failing and repeating *)

Section FetchOutcomes.

Lemma getLatest_ok_response (env : Env) (w : World) (r : FetchResult) :
  makeHttpsRequest env = Resolved r -> statusCode r = 200 ->
  match string_tag (body r) with
  | Some s =>
      fst (fst (getLatestTasmotaVersion env w))
      = Returns (Some (parseVersionString s))
  | None => exists e, getLatestTasmotaVersion env w = (Throws e, w, [])
  end.
Proof.
  intros Hr Hs. apply N.eqb_eq in Hs.
  unfold getLatestTasmotaVersion, bind, try_catch, string_tag. rewrite Hr.
  cbn [await ret]. rewrite Hs.
  destruct (body r) as [|info]; cbn [JSON_parse ret throw];
    [eexists; reflexivity|].
  destruct info as [| b | l | s | items | ms];
    cbn [get_tag_name ret throw call_parseVersionString];
    try (eexists; reflexivity).
  destruct (member "tag_name" ms) as [[| b | l | s | items | ms']|];
    first [reflexivity | eexists; reflexivity].
Qed.

Lemma parse_plain_text (v : Version) :
  plain_version v = true -> regex_match (version_text v) <> None
  /\ parseVersionString (version_text v) = v.
Proof.
  destruct v as [a b c]. unfold plain_version.
  cbn [major minor revision]. intros H.
  apply andb_prop in H as [H Hc]. apply andb_prop in H as [Ha Hb].
  apply toString_plain in Ha as [Da Na], Hb as [Db Nb], Hc as [Dc Nc].
  pose proof (parse_well_formed (mkGroups (toString a) (toString b)
                                          (toString c)) Da Db Dc) as E.
  cbn [g_major g_minor g_revision] in E.
  rewrite Na, Nb, Nc in E. split; [|exact E].
  unfold version_text. cbn [major minor revision].
  assert (M : regex_match ("v" ++ toString a ++ "." ++ toString b ++ "."
                               ++ toString c)
              = Some (mkGroups (toString a) (toString b) (toString c))).
  { apply regex_match_iff. repeat split; try apply Da; try apply Db;
      apply Dc. }
  rewrite M. discriminate.
Qed.

End FetchOutcomes.

(** X6: on a response with status 200, [getLatestTasmotaVersion] returns
    the parsed version when the body is a JSON object whose [tag_name] is a
    string; in every other case (body not JSON, not an object, no
    [tag_name], [tag_name] not a string) it throws, having logged nothing;
    it never returns [null]. *)
Theorem ok_response_version_or_exception (env : Env) (w : World)
        (r : FetchResult) :
  makeHttpsRequest env = Resolved r -> statusCode r = 200 ->
  fst (fst (getLatestTasmotaVersion env w)) <> Returns None
  /\ match string_tag (body r) with
     | Some s =>
         fst (fst (getLatestTasmotaVersion env w))
         = Returns (Some (parseVersionString s))
     | None => exists e, getLatestTasmotaVersion env w = (Throws e, w, [])
     end.
Proof.
  intros Hr Hs. pose proof (getLatest_ok_response env w r Hr Hs) as H.
  split; [|exact H].
  destruct (string_tag (body r)) as [s|].
  - rewrite H. discriminate.
  - destruct H as [e ->]. discriminate.
Qed.

Lemma ok_response_version_or_exception_witness :
  fst (fst (getLatestTasmotaVersion
              (mkEnv (Resolved (mkFetchResult 200 [] NotJSON))
                     (Resolved tt) WriteOk) (start None)))
  <> Returns None.
Proof.
  exact (proj1 (ok_response_version_or_exception
                  (mkEnv (Resolved (mkFetchResult 200 [] NotJSON))
                         (Resolved tt) WriteOk)
                  (start None) (mkFetchResult 200 [] NotJSON)
                  eq_refl eq_refl)).
Defined.

(** X7: when [getLatestTasmotaVersion] throws, the cycle rejects with the
    same exception and has changed neither the file nor the field, called
    neither the trigger card nor [fs.writeFileSync]. *)
Theorem fetch_exception_leaves_state (env : Env) (w : World) (e : Exn) :
  fst (fst (getLatestTasmotaVersion env w)) = Throws e ->
  fst (fst (checkTasmotaReleases env w)) = Throws e
  /\ tick env w = w
  /\ triggers (tick_events env w) = []
  /\ writes (tick_events env w) = [].
Proof.
  intros H.
  destruct (getLatest_frame env w) as (Hw & Htr & Hwr).
  destruct (getLatestTasmotaVersion env w) as [[res w1] ev] eqn:Hg.
  cbn [fst snd] in *. subst w1 res.
  unfold tick, tick_events. rewrite (check_thrown env w e ev Hg).
  cbn [fst snd]. repeat split; assumption.
Qed.

Lemma fetch_exception_leaves_state_witness :
  tick (mkEnv (Resolved (mkFetchResult 200 [] NotJSON)) (Resolved tt) WriteOk)
       (start (Some "v1.0.0"))
  = start (Some "v1.0.0").
Proof.
  exact (proj1 (proj2 (fetch_exception_leaves_state
                         (mkEnv (Resolved (mkFetchResult 200 [] NotJSON))
                                (Resolved tt) WriteOk)
                         (start (Some "v1.0.0"))
                         (SyntaxError "Unexpected token in JSON") eq_refl))).
Defined.

(** X8: when the trigger card rejects, the cycle rejects with that reason
    after the one trigger call, writes nothing and leaves the file and the
    field as they were; a later cycle that fetches the same version calls
    the trigger card again with the same tokens. *)
Theorem rejected_trigger_is_retried (env env' : Env) (w : World)
        (old nv : Version) (e : Exn) :
  lastTasmotaVersion w = Some old ->
  fst (fst (getLatestTasmotaVersion env w)) = Returns (Some nv) ->
  fst (fst (getLatestTasmotaVersion env' w)) = Returns (Some nv) ->
  updateAvailable old nv = true ->
  trigger env = Rejected e ->
  fst (fst (checkTasmotaReleases env w)) = Throws e
  /\ tick env w = w
  /\ triggers (tick_events env w) = [CardTrigger (tokens_of nv old)]
  /\ writes (tick_events env w) = []
  /\ triggers (tick_events env' (tick env w))
     = [CardTrigger (tokens_of nv old)].
Proof.
  intros Hl Hg Hg' Hu Ht.
  assert (Hfirst : fst (fst (checkTasmotaReleases env w)) = Throws e
                   /\ tick env w = w
                   /\ triggers (tick_events env w)
                      = [CardTrigger (tokens_of nv old)]
                   /\ writes (tick_events env w) = []).
  { destruct (cycle_cases env w old Hl)
      as [(_ & _ & _ & Hno) | [(nv1 & e1 & G & _ & T & R & W & Tr & Wr)
                              | [(nv1 & _ & _ & T & _)
                                | (nv1 & G & _ & R & _)]]].
    - rewrite (Hno nv Hg) in Hu. discriminate.
    - rewrite Hg in G. injection G as ->. rewrite Ht in T.
      injection T as ->. auto.
    - rewrite Ht in T. discriminate.
    - exfalso.
      destruct (getLatest_frame env w) as (Hw & _ & _).
      destruct (getLatestTasmotaVersion env w) as [[res w1] ev] eqn:E.
      cbn [fst snd] in *. subst w1 res.
      rewrite (check_trigger_rejected env w nv old ev e E Hl Hu Ht)
        in R. discriminate. }
  destruct Hfirst as (H1 & H2 & H3 & H4).
  repeat split; try assumption. rewrite H2.
  destruct (cycle_cases env' w old Hl)
    as [(_ & _ & _ & Hno) | [(nv1 & e1 & G & _ & _ & _ & _ & Tr & _)
                            | [(nv1 & G & _ & _ & _ & _ & Tr & _)
                              | (nv1 & G & _ & _ & _ & Tr & _)]]].
  - rewrite (Hno nv Hg') in Hu. discriminate.
  - rewrite Hg' in G. injection G as ->. exact Tr.
  - rewrite Hg' in G. injection G as ->. exact Tr.
  - rewrite Hg' in G. injection G as ->. exact Tr.
Qed.

Lemma rejected_trigger_is_retried_witness :
  tick (mkEnv (Resolved (release_response (JString "v1.0.1")))
              (Rejected (Error "card unavailable")) WriteOk)
       (start (Some "v1.0.0"))
  = start (Some "v1.0.0")
  /\ triggers (tick_events (online (JString "v1.0.1"))
                 (tick (mkEnv (Resolved (release_response (JString "v1.0.1")))
                              (Rejected (Error "card unavailable")) WriteOk)
                       (start (Some "v1.0.0"))))
     = [CardTrigger (tokens_of (version_of 1 0 1) (version_of 1 0 0))].
Proof.
  destruct (rejected_trigger_is_retried
              (mkEnv (Resolved (release_response (JString "v1.0.1")))
                     (Rejected (Error "card unavailable")) WriteOk)
              (online (JString "v1.0.1")) (start (Some "v1.0.0"))
              (version_of 1 0 0) (version_of 1 0 1)
              (Error "card unavailable")
              eq_refl eq_refl eq_refl eq_refl eq_refl)
    as (_ & H2 & _ & _ & H5).
  split; [exact H2 | exact H5].
Defined.

(** X9: a cycle that starts with a version in the field calls the trigger
    card at most once and [fs.writeFileSync] at most once.  Either it calls
    neither, and then no version was fetched that is an update of the
    stored one; or it calls the trigger card once, with the version that
    [getLatestTasmotaVersion] returned in this cycle, which is an update of
    the stored one, and with the stored version, and it either writes
    nothing or writes once, the text of that fetched version. *)
Theorem cycle_effects_bounded (env : Env) (w : World) (old : Version) :
  lastTasmotaVersion w = Some old ->
  (triggers (tick_events env w) = []
   /\ writes (tick_events env w) = []
   /\ forall nv,
        fst (fst (getLatestTasmotaVersion env w)) = Returns (Some nv) ->
        updateAvailable old nv = false)
  \/ exists nv,
      fst (fst (getLatestTasmotaVersion env w)) = Returns (Some nv)
      /\ updateAvailable old nv = true
      /\ triggers (tick_events env w) = [CardTrigger (tokens_of nv old)]
      /\ (writes (tick_events env w) = []
          \/ writes (tick_events env w) = [WriteFileSync (version_text nv)]).
Proof.
  intros Hl.
  destruct (cycle_cases env w old Hl)
    as [(_ & Tr & Wr & Hno)
       | [(nv & e & G & Hu & _ & _ & _ & Tr & Wr)
         | [(nv & G & Hu & _ & _ & _ & Tr & Wr)
           | (nv & G & Hu & _ & _ & Tr & Wr)]]].
  - left. auto.
  - right. exists nv. auto.
  - right. exists nv. auto.
  - right. exists nv. auto.
Qed.

Lemma cycle_effects_bounded_witness :
  triggers (tick_events (online (JString "v1.0.1")) (start (Some "v1.0.0")))
  = [CardTrigger (tokens_of (version_of 1 0 1) (version_of 1 0 0))]
  /\ writes (tick_events (online (JString "v1.0.1")) (start (Some "v1.0.0")))
     = [WriteFileSync "v1.0.1"].
Proof.
  destruct (cycle_effects_bounded (online (JString "v1.0.1"))
              (start (Some "v1.0.0")) (version_of 1 0 0) eq_refl)
    as [(Tr & _) | (nv & G & _ & Tr & _)].
  - discriminate Tr.
  - injection G as <-. split; [exact Tr | reflexivity].
Defined.

(** X10: running a cycle a second time with the same answers changes
    nothing more, and after a cycle that ended normally the repetition calls
    neither the trigger card nor [fs.writeFileSync]: a version is announced
    once. *)
Theorem repeated_cycle_is_silent (env : Env) (w : World) (old : Version) :
  lastTasmotaVersion w = Some old ->
  tick env (tick env w) = tick env w
  /\ (fst (fst (checkTasmotaReleases env w)) = Returns tt ->
      triggers (tick_events env (tick env w)) = []
      /\ writes (tick_events env (tick env w)) = []).
Proof.
  intros Hl.
  destruct (cycle_cases env w old Hl)
    as [(Hw & Tr & Wr & _) | [(nv & e & _ & _ & _ & R & Hw & _)
                             | [(nv & _ & _ & _ & R & Hw & _)
                               | (nv & G & Hu & R & Hw & _)]]].
  - rewrite Hw. split; [exact Hw | auto].
  - rewrite Hw. split; [exact Hw|]. rewrite R. discriminate.
  - rewrite Hw. split; [exact Hw|]. rewrite R. discriminate.
  - set (w1 := tick env w) in *.
    assert (Hl1 : lastTasmotaVersion w1 = Some nv) by (rewrite Hw; reflexivity).
    assert (G1 : fst (fst (getLatestTasmotaVersion env w1))
                 = Returns (Some nv)).
    { rewrite <- G. apply getLatest_any_world. }
    destruct (cycle_cases env w1 nv Hl1)
      as [(Hw1 & Tr & Wr & _) | [(nv1 & e & G' & Hu' & _)
                                | [(nv1 & G' & Hu' & _)
                                  | (nv1 & G' & Hu' & _)]]].
    + split; [exact Hw1 | auto].
    + rewrite G1 in G'. injection G' as <-.
      rewrite updateAvailable_irrefl in Hu'. discriminate.
    + rewrite G1 in G'. injection G' as <-.
      rewrite updateAvailable_irrefl in Hu'. discriminate.
    + rewrite G1 in G'. injection G' as <-.
      rewrite updateAvailable_irrefl in Hu'. discriminate.
Qed.

Lemma repeated_cycle_is_silent_witness :
  tick (online (JString "v1.0.1"))
       (tick (online (JString "v1.0.1")) (start (Some "v1.0.0")))
  = tick (online (JString "v1.0.1")) (start (Some "v1.0.0"))
  /\ triggers (tick_events (online (JString "v1.0.1"))
                 (tick (online (JString "v1.0.1")) (start (Some "v1.0.0"))))
     = [].
Proof.
  destruct (repeated_cycle_is_silent (online (JString "v1.0.1"))
              (start (Some "v1.0.0")) (version_of 1 0 0) eq_refl)
    as [H1 H2].
  split; [exact H1 | exact (proj1 (H2 eq_refl))].
Defined.

(** ** The file as the mirror of the field *)

Section Mirror.

Variable f : option string.

Lemma mirrored_tick (env : Env) (w : World) (old : Version) :
  write_ok env = true -> lastTasmotaVersion w = Some old ->
  mirrored f w -> mirrored f (tick env w).
Proof.
  intros Hok Hl Hm.
  destruct (cycle_cases env w old Hl)
    as [(Hw & _) | [(nv & e & _ & _ & _ & _ & Hw & _)
                   | [(nv & _ & _ & _ & _ & Hw & _)
                     | (nv & _ & _ & _ & Hw & _)]]].
  - rewrite Hw. exact Hm.
  - rewrite Hw. exact Hm.
  - rewrite Hw. exact Hm.
  - right. exists nv. rewrite Hw. unfold write_ok in Hok.
    destruct (writeFileSync env); [auto | discriminate].
Qed.

Lemma mirrored_run (envs : list Env) :
  forall (w : World) (old : Version),
    forallb write_ok envs = true -> lastTasmotaVersion w = Some old ->
    mirrored f w -> mirrored f (run envs w).
Proof.
  induction envs as [|env rest IH]; intros w old Hok Hl Hm; cbn [run].
  - exact Hm.
  - cbn [forallb] in Hok. apply andb_prop in Hok as [Hok Hrest].
    destruct (tick_last env w old Hl) as [Hs | (nv & Hn & _)].
    + exact (IH _ old Hrest Hs (mirrored_tick env w old Hok Hl Hm)).
    + exact (IH _ nv Hrest Hn (mirrored_tick env w old Hok Hl Hm)).
Qed.

End Mirror.

(** X11: as long as every write succeeds, the file mirrors the field after
    any number of cycles: either nothing has been saved and file and field
    are as the constructor left them, or the file holds exactly the text of
    the version in the field. *)
Theorem file_mirrors_field (f : option string) (envs : list Env) :
  forallb write_ok envs = true ->
  (file (run envs (start f)) = f
   /\ lastTasmotaVersion (run envs (start f))
      = lastTasmotaVersion (start f))
  \/ exists v,
      lastTasmotaVersion (run envs (start f)) = Some v
      /\ file (run envs (start f)) = Some (version_text v).
Proof.
  intros Hok. destruct (start_spec f) as [Hf Hl].
  apply (mirrored_run f envs (start f) _ Hok Hl).
  left. split; [exact Hf | reflexivity].
Qed.

Lemma file_mirrors_field_witness :
  (file (run [online (JString "v1.0.1"); offline] (start (Some "v1.0.0")))
   = Some "v1.0.0"
   /\ lastTasmotaVersion
        (run [online (JString "v1.0.1"); offline] (start (Some "v1.0.0")))
      = lastTasmotaVersion (start (Some "v1.0.0")))
  \/ exists v,
      lastTasmotaVersion
        (run [online (JString "v1.0.1"); offline] (start (Some "v1.0.0")))
      = Some v
      /\ file (run [online (JString "v1.0.1"); offline]
                   (start (Some "v1.0.0")))
         = Some (version_text v).
Proof.
  exact (file_mirrors_field (Some "v1.0.0")
           [online (JString "v1.0.1"); offline] eq_refl).
Defined.

(** X12: if every write has succeeded and the version in the field prints
    in plain digits (fields below 10^21), a process restarted on the file
    loads the version that the old process held. *)
Theorem restart_resumes (f : option string) (envs : list Env)
        (v : Version) :
  forallb write_ok envs = true ->
  lastTasmotaVersion (run envs (start f)) = Some v ->
  plain_version v = true ->
  lastTasmotaVersion (start (file (run envs (start f)))) = Some v.
Proof.
  intros Hok Hv Hplain. destruct (start_spec f) as [Hf Hl].
  assert (Hm : mirrored f (run envs (start f))).
  { apply (mirrored_run f envs (start f) _ Hok Hl).
    left. split; [exact Hf | reflexivity]. }
  destruct Hm as [[Hfile Hsame] | (v' & Hv' & Hfile)].
  - rewrite Hfile, <- Hsame. exact Hv.
  - rewrite Hv in Hv'. injection Hv' as <-. rewrite Hfile.
    destruct (start_spec (Some (version_text v))) as [_ ->].
    rewrite (proj2 (parse_plain_text v Hplain)). reflexivity.
Qed.

Lemma restart_resumes_witness :
  lastTasmotaVersion
    (start (file (run [online (JString "v1.0.1"); offline]
                      (start (Some "v1.0.0")))))
  = Some (version_of 1 0 1).
Proof.
  exact (restart_resumes (Some "v1.0.0")
           [online (JString "v1.0.1"); offline] (version_of 1 0 1)
           eq_refl eq_refl eq_refl).
Defined.

(** X13: a version that prints in plain digits and is saved successfully
    is the version that the next process loads; the save itself leaves the
    field alone. *)
Theorem saved_version_is_loaded (env : Env) (w : World) (v : Version) :
  writeFileSync env = WriteOk -> plain_version v = true ->
  fst (fst (saveTasmotaVersion env v w)) = Returns tt
  /\ lastTasmotaVersion (snd (fst (saveTasmotaVersion env v w)))
     = lastTasmotaVersion w
  /\ lastTasmotaVersion
       (start (file (snd (fst (saveTasmotaVersion env v w)))))
     = Some v.
Proof.
  intros Hw Hplain.
  unfold saveTasmotaVersion, try_catch, fs_writeFileSync. rewrite Hw.
  cbn [fst snd file lastTasmotaVersion]. repeat split.
  destruct (start_spec (Some (version_text v))) as [_ ->].
  rewrite (proj2 (parse_plain_text v Hplain)). reflexivity.
Qed.

Lemma saved_version_is_loaded_witness :
  lastTasmotaVersion
    (start (file (snd (fst (saveTasmotaVersion
                              (online JNull) (version_of 14 2 0)
                              (start None))))))
  = Some (version_of 14 2 0).
Proof.
  exact (proj2 (proj2 (saved_version_is_loaded
                         (online JNull) (start None) (version_of 14 2 0)
                         eq_refl eq_refl))).
Defined.

(** X14: a version file whose text is not exactly of the form
    [v<digits>.<digits>.<digits>] (a trailing newline is enough) is loaded
    as the sentinel (0, 0, 0), as if there were no file; the constructor
    leaves the file as it is. *)
Theorem corrupt_file_loads_sentinel (text : string) :
  ~ well_formed_tag text ->
  lastTasmotaVersion (start (Some text)) = lastTasmotaVersion (start None)
  /\ lastTasmotaVersion (start (Some text)) = Some sentinel
  /\ file (start (Some text)) = Some text.
Proof.
  intros Hbad. destruct (start_spec (Some text)) as [Hf Hl].
  unfold parseVersionString in Hl. rewrite (regex_match_none text Hbad) in Hl.
  repeat split; assumption.
Qed.

Lemma corrupt_file_loads_sentinel_witness :
  lastTasmotaVersion (start (Some ("v1.2.3" ++ String "010" "")))
  = Some sentinel.
Proof.
  refine (proj1 (proj2 (corrupt_file_loads_sentinel
                          ("v1.2.3" ++ String "010" "") _))).
  intros [g Hg]. apply regex_match_iff in Hg. discriminate Hg.
Defined.

(** X15: a 200 response whose [tag_name] is a string outside the pattern
    is fetched as the sentinel and then ignored: with a version in the
    field the cycle ends normally, calls neither the trigger card nor
    [fs.writeFileSync], and leaves the file and the field as they were. *)
Theorem malformed_tag_is_ignored (env : Env) (w : World) (r : FetchResult)
        (s : string) (old : Version) :
  lastTasmotaVersion w = Some old ->
  makeHttpsRequest env = Resolved r -> statusCode r = 200 ->
  string_tag (body r) = Some s -> ~ well_formed_tag s ->
  fst (fst (checkTasmotaReleases env w)) = Returns tt
  /\ tick env w = w
  /\ triggers (tick_events env w) = []
  /\ writes (tick_events env w) = [].
Proof.
  intros Hl Hr Hs Ht Hbad.
  pose proof (getLatest_ok_response env w r Hr Hs) as Hg.
  rewrite Ht in Hg. unfold parseVersionString in Hg.
  rewrite (regex_match_none s Hbad) in Hg.
  destruct (getLatest_frame env w) as (Hw & Htr & Hwr).
  destruct (getLatestTasmotaVersion env w) as [[res w1] ev] eqn:E.
  cbn [fst snd] in *. subst w1 res.
  unfold tick, tick_events.
  rewrite (check_not_newer env w sentinel old ev E Hl (sentinel_least old)).
  cbn [fst snd]. repeat split; assumption.
Qed.

Lemma malformed_tag_is_ignored_witness :
  tick (online (JString "latest")) (start (Some "v1.0.0"))
  = start (Some "v1.0.0").
Proof.
  refine (proj1 (proj2 (malformed_tag_is_ignored
                          (online (JString "latest")) (start (Some "v1.0.0"))
                          (release_response (JString "latest")) "latest"
                          (version_of 1 0 0)
                          eq_refl eq_refl eq_refl eq_refl _))).
  intros [g Hg]. apply regex_match_iff in Hg. discriminate Hg.
Defined.

(** ** The directory walk *)

Section Walk.

Import DirectoryWalk.

(** Induction on a tree, with the property available for every entry of a
    directory. *)
Lemma Node_induction (P : Node -> Prop) :
  P File -> P Missing -> P Locked ->
  (forall es, Forall (fun e => P (snd e)) es -> P (Dir es)) ->
  forall n, P n.
Proof.
  intros HF HM HL HD.
  fix IH 1. intros [| es | |]; [exact HF | | exact HM | exact HL].
  apply HD. induction es as [|[name child] rest IHes]; constructor.
  - exact (IH child).
  - exact IHes.
Qed.

(** One step of the [forEach] loop. *)
Lemma getAllFiles_cons (d file : string) (child : Node)
      (rest : list (string * Node)) (acc : list string) :
  getAllFiles d (Dir ((file, child) :: rest)) acc
  = match child with
    | Missing => Failed (stat_error (child_path d file)) acc
    | File => getAllFiles d (Dir rest) (acc ++ [child_path d file])
    | _ =>
        match getAllFiles (child_path d file) child acc with
        | Walked acc' => getAllFiles d (Dir rest) acc'
        | Failed e acc' => Failed e acc'
        end
    end.
Proof. destruct child; reflexivity. Qed.

Lemma starts_with_app (p s : string) : starts_with p (p ++ s) = true.
Proof.
  induction p as [|c p IH]; cbn [append starts_with]; [reflexivity|].
  rewrite Ascii.eqb_refl, IH. reflexivity.
Qed.

Lemma starts_with_shorter (p q s : string) :
  starts_with (p ++ q) s = true -> starts_with p s = true.
Proof.
  revert s. induction p as [|c p IH]; intros s; cbn [append starts_with];
    [reflexivity|].
  destruct s as [|c' s]; [discriminate|].
  intros H. apply andb_prop in H as [Hc Hs].
  rewrite Hc, (IH s Hs). reflexivity.
Qed.

Lemma child_path_under (d file : string) :
  starts_with (d ++ "/") (child_path d file) = true.
Proof.
  unfold child_path. rewrite <- append_assoc. apply starts_with_app.
Qed.

Lemma below_child_under (d file p : string) :
  starts_with (child_path d file ++ "/") p = true ->
  starts_with (d ++ "/") p = true.
Proof.
  unfold child_path. rewrite <- (append_assoc d "/" file), append_assoc.
  apply starts_with_shorter.
Qed.

(** Whatever the outcome, the array after the call is the array before it
    followed by paths below [dirPath]. *)
Lemma getAllFiles_extends (n : Node) :
  forall (d : string) (acc : list string),
  exists added,
    array_after (getAllFiles d n acc) = (acc ++ added)%list
    /\ Forall (fun p => starts_with (d ++ "/") p = true) added.
Proof.
  induction n as [| | | es IHes] using Node_induction; intros d acc;
    try (exists []; split; [cbn; rewrite app_nil_r; reflexivity
                           | constructor]).
  revert acc. induction IHes as [|[file child] rest Hchild _ IHrest];
    intros acc.
  - exists []. split; [cbn; rewrite app_nil_r; reflexivity | constructor].
  - rewrite getAllFiles_cons. cbn [snd] in Hchild.
    assert (Hsub : forall acc0,
               exists added,
                 array_after
                   match getAllFiles (child_path d file) child acc0 with
                   | Walked acc' => getAllFiles d (Dir rest) acc'
                   | Failed e acc' => Failed e acc'
                   end = (acc0 ++ added)%list
                 /\ Forall (fun p => starts_with (d ++ "/") p = true) added).
    { intros acc0.
      destruct (Hchild (child_path d file) acc0) as (a1 & E1 & F1).
      assert (F1' : Forall (fun p => starts_with (d ++ "/") p = true) a1).
      { eapply Forall_impl; [|exact F1]. intros p.
        apply below_child_under. }
      destruct (getAllFiles (child_path d file) child acc0) as [acc'|e acc'].
      - cbn [array_after] in E1. subst acc'.
        destruct (IHrest (acc0 ++ a1)%list) as (a2 & E2 & F2).
        exists (a1 ++ a2)%list. split.
        + rewrite E2, app_assoc. reflexivity.
        + apply Forall_app. split; assumption.
      - cbn [array_after] in *. exists a1. split; assumption. }
    destruct child as [| es' | |].
    + destruct (IHrest (acc ++ [child_path d file])%list) as (a2 & E2 & F2).
      exists (child_path d file :: a2). split.
      * rewrite E2, <- app_assoc. reflexivity.
      * constructor; [apply child_path_under | exact F2].
    + apply Hsub.
    + exists []. split; [cbn; rewrite app_nil_r; reflexivity | constructor].
    + apply Hsub.
Qed.

(** On a directory that can be read throughout, the walk succeeds, adds as
    many paths as there are files below it, and adds the same paths to any
    array. *)
Lemma getAllFiles_readable (n : Node) :
  forall (d : string) (acc : list string),
    is_dir n = true -> readable n = true ->
    exists added,
      getAllFiles d n acc = Walked (acc ++ added)
      /\ getAllFiles d n [] = Walked added
      /\ length added = count_files n.
Proof.
  induction n as [| | | es IHes] using Node_induction; intros d acc Hd Hr;
    try discriminate.
  clear Hd. revert acc Hr.
  induction IHes as [|[file child] rest Hchild _ IHrest]; intros acc Hr.
  - exists []. cbn. rewrite app_nil_r. auto.
  - cbn [snd] in Hchild.
    change (readable (Dir ((file, child) :: rest)))
      with (readable child && readable (Dir rest)) in Hr.
    apply andb_prop in Hr as [Hrc Hrr].
    change (count_files (Dir ((file, child) :: rest)))
      with (count_files child + count_files (Dir rest))%nat.
    assert (Hrest : forall acc0, exists added,
               getAllFiles d (Dir rest) acc0 = Walked (acc0 ++ added)
               /\ getAllFiles d (Dir rest) [] = Walked added
               /\ length added = count_files (Dir rest)).
    { intros acc0. exact (IHrest acc0 Hrr). }
    rewrite !getAllFiles_cons.
    destruct child as [| es' | |]; try discriminate.
    + destruct (Hrest (acc ++ [child_path d file])%list) as (a2 & E2 & E0 & L2).
      destruct (Hrest ([] ++ [child_path d file])%list) as (a2' & E2' & E0' & _).
      assert (a2' = a2) by congruence. subst a2'.
      exists (child_path d file :: a2).
      rewrite E2, E2', <- app_assoc. cbn [app length count_files].
      rewrite L2. auto.
    + destruct (Hchild (child_path d file) acc eq_refl Hrc)
        as (a1 & E1 & E1' & L1).
      rewrite E1, E1'.
      destruct (Hrest (acc ++ a1)%list) as (a2 & E2 & E0 & L2).
      destruct (Hrest a1) as (a2' & E2' & E0' & _).
      assert (a2' = a2) by congruence. subst a2'.
      exists (a1 ++ a2)%list.
      rewrite E2, E2', app_assoc, length_app, L1, L2. auto.
Qed.

(** The walk fails on anything that is not a directory readable
    throughout. *)
Lemma getAllFiles_unreadable (n : Node) :
  forall (d : string) (acc : list string),
    is_dir n && readable n = false ->
    exists e a, getAllFiles d n acc = Failed e a.
Proof.
  induction n as [| | | es IHes] using Node_induction; intros d acc H;
    try (eexists; eexists; reflexivity).
  cbn [is_dir andb] in H. revert acc H.
  induction IHes as [|[file child] rest Hchild _ IHrest]; intros acc H.
  - discriminate.
  - cbn [snd] in Hchild.
    change (readable (Dir ((file, child) :: rest)))
      with (readable child && readable (Dir rest)) in H.
    rewrite getAllFiles_cons.
    destruct child as [| es' | |].
    + cbn [readable andb] in H. exact (IHrest _ H).
    + destruct (readable (Dir es')) eqn:Hc.
      * destruct (getAllFiles_readable (Dir es') (child_path d file) acc
                    eq_refl Hc) as (a1 & E1 & _).
        rewrite E1. cbn [andb] in H. exact (IHrest _ H).
      * destruct (Hchild (child_path d file) acc eq_refl) as (e & a & E).
        rewrite E. eexists; eexists; reflexivity.
    + eexists; eexists; reflexivity.
    + eexists; eexists; reflexivity.
Qed.

End Walk.

Section WalkOrder.

Import DirectoryWalk.

(** The entries are walked in the order of the listing, and nothing after
    a failing entry is visited. *)
Lemma getAllFiles_app (d : string) (es1 es2 : list (string * Node)) :
  forall acc,
    getAllFiles d (Dir (es1 ++ es2)) acc
    = match getAllFiles d (Dir es1) acc with
      | Walked acc' => getAllFiles d (Dir es2) acc'
      | Failed e acc' => Failed e acc'
      end.
Proof.
  induction es1 as [|[file child] rest IH]; intros acc; [reflexivity|].
  rewrite <- app_comm_cons, !getAllFiles_cons.
  destruct child as [| es' | |]; try reflexivity; try apply IH.
  destruct (getAllFiles (child_path d file) (Dir es') acc);
    [apply IH | reflexivity].
Qed.

End WalkOrder.

Section WalkPaths.

Import DirectoryWalk.

Lemma files_below_cons (d name : string) (child : Node)
      (rest : list (string * Node)) :
  files_below d (Dir ((name, child) :: rest))
  = (files_below (child_path d name) child ++ files_below d (Dir rest))%list.
Proof. reflexivity. Qed.

(** On a directory readable throughout, the walk appends the files below
    it, in that order. *)
Lemma getAllFiles_files (n : Node) :
  forall (d : string) (acc : list string),
    is_dir n = true -> readable n = true ->
    getAllFiles d n acc = Walked (acc ++ files_below d n).
Proof.
  induction n as [| | | es IHes] using Node_induction; intros d acc Hd Hr;
    try discriminate.
  clear Hd. revert acc Hr.
  induction IHes as [|[file child] rest Hchild _ IHrest]; intros acc Hr.
  - cbn. rewrite app_nil_r. reflexivity.
  - cbn [snd] in Hchild.
    change (readable (Dir ((file, child) :: rest)))
      with (readable child && readable (Dir rest)) in Hr.
    apply andb_prop in Hr as [Hrc Hrr].
    rewrite getAllFiles_cons, files_below_cons.
    destruct child as [| es' | |]; try discriminate.
    + rewrite (IHrest _ Hrr). cbn [files_below].
      rewrite <- app_assoc. reflexivity.
    + rewrite (Hchild (child_path d file) acc eq_refl Hrc).
      rewrite (IHrest _ Hrr), app_assoc. reflexivity.
Qed.

Lemma files_below_length (n : Node) :
  forall d : string, length (files_below d n) = count_files n.
Proof.
  induction n as [| | | es IHes] using Node_induction; intros d;
    try reflexivity.
  induction IHes as [|[name child] rest Hchild _ IHrest]; [reflexivity|].
  cbn [snd] in Hchild. rewrite files_below_cons, length_app.
  change (count_files (Dir ((name, child) :: rest)))
    with (count_files child + count_files (Dir rest))%nat.
  rewrite (Hchild (child_path d name)), IHrest. reflexivity.
Qed.

(** The paths listed are exactly the paths of the files that can be
    reached from the node. *)
Lemma files_below_at (n : Node) :
  forall (d p : string), In p (files_below d n) <-> file_at d n p.
Proof.
  induction n as [| | | es IHes] using Node_induction; intros d p.
  - cbn. split.
    + intros [<- | []]. constructor.
    + intros H. inversion H. auto.
  - cbn. split; [intros [] | intros H; inversion H].
  - cbn. split; [intros [] | intros H; inversion H].
  - induction IHes as [|[name child] rest Hchild _ IHrest].
    + cbn. split; [intros [] | intros H; inversion H; contradiction].
    + cbn [snd] in Hchild. rewrite files_below_cons, in_app_iff.
      rewrite (Hchild (child_path d name) p), IHrest. split.
      * intros [H | H].
        -- apply (file_inside d _ name child p); [left; reflexivity | exact H].
        -- inversion H as [|d0 es0 name0 child0 p0 Hin Hat]; subst.
           apply (file_inside d _ name0 child0 p); [right; exact Hin | exact Hat].
      * intros H. inversion H as [|d0 es0 name0 child0 p0 Hin Hat]; subst.
        destruct Hin as [E | Hin].
        -- injection E as <- <-. left. exact Hat.
        -- right. apply (file_inside d rest name0 child0 p Hin Hat).
Qed.

End WalkPaths.

(** X16: [getAllFiles] returns normally exactly when [dirPath] is a
    directory in which every entry, at every depth, can be examined and
    every directory can be listed; otherwise it throws. *)
Theorem walk_succeeds_iff_readable (d : string) (n : DirectoryWalk.Node)
        (acc : list string) :
  (exists a, DirectoryWalk.getAllFiles d n acc = DirectoryWalk.Walked a)
  <-> DirectoryWalk.is_dir n && DirectoryWalk.readable n = true.
Proof.
  split.
  - intros [a Ha].
    destruct (DirectoryWalk.is_dir n && DirectoryWalk.readable n) eqn:H;
      [reflexivity|].
    destruct (getAllFiles_unreadable n d acc H) as (e & a' & E).
    rewrite E in Ha. discriminate.
  - intros H. apply andb_prop in H as [Hd Hr].
    destruct (getAllFiles_readable n d acc Hd Hr) as (added & E & _).
    eexists. exact E.
Qed.

(** X17: on a directory that can be read throughout, [getAllFiles] returns
    the array it was given followed by the paths of the files below
    [dirPath], in the order of the listings, and nothing else: a path is
    added exactly when a file is reached from [dirPath] through entries of
    directories, its path being [dirPath] joined with the names on the way
    (directories themselves are not listed); there is one path per file,
    and the paths added do not depend on what the array held before. *)
Theorem walk_lists_every_file (d : string) (n : DirectoryWalk.Node)
        (acc : list string) :
  DirectoryWalk.is_dir n = true -> DirectoryWalk.readable n = true ->
  DirectoryWalk.getAllFiles d n acc
  = DirectoryWalk.Walked (acc ++ DirectoryWalk.files_below d n)
  /\ DirectoryWalk.getAllFiles d n []
     = DirectoryWalk.Walked (DirectoryWalk.files_below d n)
  /\ length (DirectoryWalk.files_below d n) = DirectoryWalk.count_files n
  /\ forall p,
      In p (DirectoryWalk.files_below d n) <-> DirectoryWalk.file_at d n p.
Proof.
  intros Hd Hr. split; [exact (getAllFiles_files n d acc Hd Hr)|].
  split; [exact (getAllFiles_files n d [] Hd Hr)|].
  split; [exact (files_below_length n d) | exact (files_below_at n d)].
Qed.

Lemma walk_lists_every_file_witness :
  DirectoryWalk.getAllFiles "/userdata"
    (DirectoryWalk.Dir
       [("tasmota.ver", DirectoryWalk.File);
        ("logs", DirectoryWalk.Dir [("a.log", DirectoryWalk.File);
                                    ("old", DirectoryWalk.Dir [])]);
        ("z", DirectoryWalk.File)])
    ["/x"]
  = DirectoryWalk.Walked
      ["/x"; "/userdata/tasmota.ver"; "/userdata/logs/a.log"; "/userdata/z"].
Proof.
  exact (proj1 (walk_lists_every_file "/userdata"
                  (DirectoryWalk.Dir
                     [("tasmota.ver", DirectoryWalk.File);
                      ("logs",
                       DirectoryWalk.Dir [("a.log", DirectoryWalk.File);
                                          ("old", DirectoryWalk.Dir [])]);
                      ("z", DirectoryWalk.File)])
                  ["/x"] eq_refl eq_refl)).
Defined.

(** X18: whether it returns or throws, [getAllFiles] only appends to the
    array it was given: afterwards the array is the old content followed by
    paths that all begin with [dirPath + "/"]; the paths pushed before an
    exception stay in the caller's array. *)
Theorem walk_only_appends (d : string) (n : DirectoryWalk.Node)
        (acc : list string) :
  exists added,
    DirectoryWalk.array_after (DirectoryWalk.getAllFiles d n acc)
    = (acc ++ added)%list
    /\ Forall (fun p => DirectoryWalk.starts_with (d ++ "/") p = true) added.
Proof. exact (getAllFiles_extends n d acc). Qed.

(** X19: the entries of a directory are walked in the order in which
    [readdirSync] lists them: walking a listing is walking its first part
    and then, with the array so obtained, the rest; when an entry fails, the
    entries after it are not visited. *)
Theorem walk_in_listing_order (d : string)
        (es1 es2 : list (string * DirectoryWalk.Node)) (acc : list string) :
  DirectoryWalk.getAllFiles d (DirectoryWalk.Dir (es1 ++ es2)) acc
  = match DirectoryWalk.getAllFiles d (DirectoryWalk.Dir es1) acc with
    | DirectoryWalk.Walked acc' =>
        DirectoryWalk.getAllFiles d (DirectoryWalk.Dir es2) acc'
    | DirectoryWalk.Failed e acc' => DirectoryWalk.Failed e acc'
    end.
Proof. exact (getAllFiles_app d es1 es2 acc). Qed.

(** The walk on a tree with a dangling entry: the file listed before it is
    in the array when the exception is thrown, the file after it is not. *)
Example walk_stops_at_dangling_entry :
  DirectoryWalk.getAllFiles "/userdata"
    (DirectoryWalk.Dir [("a", DirectoryWalk.File);
                        ("b", DirectoryWalk.Missing);
                        ("c", DirectoryWalk.File)]) []
  = DirectoryWalk.Failed
      (Error "ENOENT: no such file or directory, stat '/userdata/b'")
      ["/userdata/a"].
Proof. reflexivity. Qed.

(** ** The promise of [makeHttpsRequest] *)

Section HttpsPromise.

Import Https.

Lemma deliver_app (a b : list Emitted) (st : State) :
  deliver (a ++ b) st = deliver b (deliver a st).
Proof. revert st. induction a as [|ev a IH]; intros st; cbn; auto. Qed.

Lemma on_settled (ev : Emitted) (st : State) (p : Promise Result) :
  promise st = Some p -> promise (on ev st) = Some p.
Proof.
  intros H. destruct ev as [status hs | chunk | | | e]; cbn [on].
  - destruct (res st); exact H.
  - destruct (res st) as [[[status hs] b]|]; exact H.
  - destruct (res st) as [[[status hs] b]|]; [|exact H].
    destruct (end_listener st); [|exact H].
    unfold settle. cbn [promise]. rewrite H. reflexivity.
  - exact H.
  - destruct (error_listener st); [|exact H].
    unfold settle. cbn [promise]. rewrite H. reflexivity.
Qed.

Lemma deliver_settled (evs : list Emitted) :
  forall (st : State) (p : Promise Result),
    promise st = Some p -> promise (deliver evs st) = Some p.
Proof.
  induction evs as [|ev evs IH]; intros st p H; cbn [deliver]; [exact H|].
  apply IH. apply on_settled. exact H.
Qed.

(** Quiet events leave the promise and the listeners alone; after the
    response they add their chunks to [resBody]. *)
Lemma on_quiet (ev : Emitted) (st : State) :
  quiet ev = true ->
  promise (on ev st) = promise st
  /\ error_listener (on ev st) = error_listener st
  /\ (forall status hs b,
         res st = Some (status, hs, b) ->
         res (on ev st) = Some (status, hs, b ++ chunk_of ev)
         /\ end_listener (on ev st) = end_listener st).
Proof.
  destruct ev as [st0 hs0 | chunk | | | e]; cbn [on quiet settles negb];
    try discriminate; intros _.
  - destruct (res st) as [t|] eqn:R;
      (split; [reflexivity|]); (split; [reflexivity|]);
      intros status hs b E; [|discriminate].
    cbn [chunk_of]. rewrite append_nil_r, R. split; [exact E | reflexivity].
  - destruct (res st) as [[[st1 hs1] b1]|] eqn:R;
      (split; [reflexivity|]); (split; [reflexivity|]);
      intros status hs b E; [|discriminate].
    injection E as -> -> ->. split; reflexivity.
  - (split; [reflexivity|]); (split; [reflexivity|]).
    intros status hs b E. cbn [chunk_of res]. rewrite append_nil_r.
    split; [exact E | reflexivity].
Qed.

Lemma deliver_quiet (evs : list Emitted) :
  forall st : State,
    forallb quiet evs = true ->
    promise (deliver evs st) = promise st
    /\ error_listener (deliver evs st) = error_listener st
    /\ (forall status hs b,
           res st = Some (status, hs, b) ->
           res (deliver evs st) = Some (status, hs, b ++ joined evs)
           /\ end_listener (deliver evs st) = end_listener st).
Proof.
  induction evs as [|ev evs IH]; intros st Hq; cbn [deliver joined].
  - (split; [reflexivity|]); (split; [reflexivity|]).
    intros status hs b E. rewrite append_nil_r.
    split; [exact E | reflexivity].
  - cbn [forallb] in Hq. apply andb_prop in Hq as [Hev Hrest].
    destruct (on_quiet ev st Hev) as (P1 & E1 & R1).
    destruct (IH (on ev st) Hrest) as (P2 & E2 & R2).
    split; [congruence|]. split; [congruence|].
    intros status hs b Hres. destruct (R1 status hs b Hres) as [Hres1 L1].
    destruct (R2 status hs (b ++ chunk_of ev) Hres1) as [Hres2 L2].
    rewrite Hres2, L2, L1, append_assoc. auto.
Qed.

End HttpsPromise.

(** X20: when the request emits its response, then any events other than
    the end or an error, then the end, the promise is resolved with the
    status code of the response (404 if it has none), its headers, and the
    chunks received in between joined in order; whatever is emitted after
    that does not change it. *)
Theorem response_resolves_with_joined_chunks
        (status : option N) (hs : list (string * string))
        (evs rest : list Https.Emitted) :
  forallb Https.quiet evs = true ->
  Https.makeHttpsRequest
    (Https.Response status hs :: evs ++ Https.End_ :: rest)
  = Some (Resolved
            (Https.mkResult (match status with Some c => c | None => 404 end)
                            hs (Https.joined evs))).
Proof.
  intros Hq. unfold Https.makeHttpsRequest.
  cbn [Https.deliver Https.on Https.initial Https.res].
  rewrite deliver_app. cbn [Https.deliver].
  set (st0 := Https.mkState _ _ _ _ _).
  destruct (deliver_quiet evs st0 Hq) as (P & _ & R).
  destruct (R status hs "" eq_refl) as [Hres Hend].
  apply deliver_settled. cbn [Https.on]. rewrite Hres, Hend.
  unfold Https.settle. cbn [Https.promise]. rewrite P. reflexivity.
Qed.

Lemma response_resolves_with_joined_chunks_witness :
  Https.makeHttpsRequest
    [Https.Response None []; Https.Data "{a"; Https.Timeout;
     Https.Data "b}"; Https.End_; Https.Failure (Error "socket hang up")]
  = Some (Resolved (Https.mkResult 404 [] "{ab}")).
Proof.
  exact (response_resolves_with_joined_chunks None []
           [Https.Data "{a"; Https.Timeout; Https.Data "b}"]
           [Https.Failure (Error "socket hang up")] eq_refl).
Defined.

(** X21: the promise is settled once: after it has been resolved or
    rejected, no further event of the request changes its outcome. *)
Theorem promise_settles_once (evs more : list Https.Emitted)
        (p : Promise Https.Result) :
  Https.makeHttpsRequest evs = Some p ->
  Https.makeHttpsRequest (evs ++ more) = Some p.
Proof.
  unfold Https.makeHttpsRequest. intros H. rewrite deliver_app.
  apply deliver_settled. exact H.
Qed.

Lemma promise_settles_once_witness :
  Https.makeHttpsRequest
    ([Https.Failure (Error "socket hang up")]
       ++ [Https.Response (Some 200) []; Https.End_])
  = Some (Rejected (Error "socket hang up")).
Proof.
  exact (promise_settles_once [Https.Failure (Error "socket hang up")]
           [Https.Response (Some 200) []; Https.End_]
           (Rejected (Error "socket hang up")) eq_refl).
Defined.

(** X22: the promise stays pending as long as the request has emitted
    neither the end of the response nor an error: the timeout callback only
    destroys the request and by itself neither resolves nor rejects. *)
Theorem pending_without_end_or_error (evs : list Https.Emitted) :
  forallb Https.quiet evs = true -> Https.makeHttpsRequest evs = None.
Proof.
  intros Hq. unfold Https.makeHttpsRequest.
  destruct (deliver_quiet evs Https.initial Hq) as (P & _). exact P.
Qed.

Lemma pending_without_end_or_error_witness :
  Https.makeHttpsRequest
    [Https.Response (Some 200) []; Https.Data "{"; Https.Timeout] = None.
Proof.
  exact (pending_without_end_or_error
           [Https.Response (Some 200) []; Https.Data "{"; Https.Timeout]
           eq_refl).
Defined.

(** X23: the first error that the request emits before the end of the
    response rejects the promise with that error, also when the response
    and part of its body have already arrived. *)
Theorem first_error_rejects (pre rest : list Https.Emitted) (e : Exn) :
  forallb Https.quiet pre = true ->
  Https.makeHttpsRequest (pre ++ Https.Failure e :: rest)
  = Some (Rejected e).
Proof.
  intros Hq. unfold Https.makeHttpsRequest. rewrite deliver_app.
  destruct (deliver_quiet pre Https.initial Hq) as (P & E & _).
  cbn [Https.deliver]. apply deliver_settled.
  cbn [Https.on]. rewrite E. cbn [Https.initial Https.error_listener].
  unfold Https.settle. cbn [Https.promise]. rewrite P. reflexivity.
Qed.

Lemma first_error_rejects_witness :
  Https.makeHttpsRequest
    ([Https.Response (Some 200) []; Https.Data "{"; Https.Timeout]
       ++ Https.Failure (Error "socket hang up") :: [Https.End_])
  = Some (Rejected (Error "socket hang up")).
Proof.
  exact (first_error_rejects
           [Https.Response (Some 200) []; Https.Data "{"; Https.Timeout]
           [Https.End_] (Error "socket hang up") eq_refl).
Defined.

(** X24: whatever the request answers, [getLatestTasmotaVersion] leaves the
    file and the field as they are and calls neither the trigger card nor
    [fs.writeFileSync]; its result does not depend on the stored
    version. *)
Theorem fetch_has_no_side_effects (env : Env) (w w' : World) :
  snd (fst (getLatestTasmotaVersion env w)) = w
  /\ triggers (snd (getLatestTasmotaVersion env w)) = []
  /\ writes (snd (getLatestTasmotaVersion env w)) = []
  /\ fst (fst (getLatestTasmotaVersion env w))
     = fst (fst (getLatestTasmotaVersion env w')).
Proof.
  destruct (getLatest_frame env w) as (H1 & H2 & H3).
  repeat split; try assumption. apply getLatest_any_world.
Qed.
